(** * Backstage: the [todo] plugin descriptor and the TechDocs reader DOM hook

    A shallow embedding of [src/plugins/todo/src/plugin.ts], which holds two
    units: the [todoPlugin] registration and the [useTechDocsReaderDom] hook.

    - [Plugin]   : the plugin descriptor and its routable extension.
    - [Pipeline] : the render effect of the hook (pre-render, commit check,
                   post-render, [setDom]) as a step function over effect
                   executions, with the host's scheduling as the events.
    - [Footer]   : [updateFooterWidth], the resize listener and the
                   state-triggered effect.
    - [Click]    : the [onClick] callback handed to [addLinkClickListener]. *)

From Stdlib Require Import String Ascii List Bool Arith ZArith Lia DecimalString.
From stdpp Require Import base tactics option list strings gmap.

Local Open Scope string_scope.
Local Open Scope list_scope.

(** ** DOM values shared by the units *)

(** What the hook reads off a DOM element: its identity ([node]), and the two
    string properties [innerHTML] and [innerText]. *)
Record Element := mkElement {
  node : nat;
  innerHTML : string;
  innerText : string
}.

#[global] Instance Element_eq_dec : EqDecision Element.
Proof. solve_decision. Defined.

(** JavaScript truthiness of a string: every string but the empty one. *)
Definition truthy (s : string) : bool :=
  match s with
  | EmptyString => false
  | String _ _ => true
  end.

(** Truthiness of [x?.prop] where the property is a string and [x] may be
    null or undefined. *)
Definition truthy_opt (s : option string) : bool :=
  match s with
  | None => false
  | Some s => truthy s
  end.

(** [CompoundEntityRef] of '@backstage/catalog-model'. *)
Record CompoundEntityRef := mkEntityRef {
  kind : string;
  namespace : string;
  name : string
}.

#[global] Instance CompoundEntityRef_eq_dec : EqDecision CompoundEntityRef.
Proof. solve_decision. Defined.

(** ** The [todo] plugin descriptor *)

(** The module evaluates four calls when it is loaded, in this order:
    [createApiFactory], [createPlugin], [createRoutableExtension] and
    [todoPlugin.provide].  The two places where the file's own code could
    throw, [new TodoClient()] and the dynamic [import], sit inside function
    bodies that loading the module does not run.  A value of type
    [option A] below is the outcome of an evaluation: [None] when it
    throws or rejects. *)
Module Plugin.

Section Descriptor.

(** What the file imports from './api', './routes' and
    './components/ExampleComponent': the API reference and the root route
    reference; the constructor call [new TodoClient()], which gives a client
    or throws; the dynamic import, which gives the component module or is
    rejected; and the module's [ExampleComponent]. *)
Context {ApiRef RouteRef Api ComponentModule Component : Type}.
Context `{EqDecision ApiRef}.
Variable todoApiRef : ApiRef.
Variable rootRouteRef : RouteRef.
Variable new_TodoClient : unit -> option Api.
Variable import_ExampleComponent : unit -> option ComponentModule.
Variable ExampleComponent : ComponentModule -> Component.


















End Descriptor.

End Plugin.

(** ** The render pipeline of [useTechDocsReaderDom] *)

(** The render effect starts [preRender], and continues in the [.then]
    callback and after [await postRender(...)].  Between these points the
    execution is suspended and anything else may run: another execution of
    the effect (whose start runs this one's cleanup), or the steps of an
    older execution still in flight.  The model keeps every execution of
    the effect with its own [shouldReplaceContent], and takes the order in
    which the host resumes them, and what each transformer returns, as a
    list of events; properties are stated for every such list. *)
Module Pipeline.

(** The transformers the hook puts in its two lists, by their names in the
    source.  [addBaseUrl] keeps the two arguments that vary per request. *)
Inductive Transformer :=
| sanitizerTransformer
| addBaseUrl (entityId : CompoundEntityRef) (path : string)
| rewriteDocLinks
| addSidebarToggle
| removeMkdocsHeader
| simplifyMkdocsFooter
| addGitFeedbackLink
| stylesTransformer
| scrollIntoAnchor
| scrollIntoNavigation
| copyToClipboard
| addLinkClickListener
| onCssReady.

#[global] Instance Transformer_eq_dec : EqDecision Transformer.
Proof. solve_decision. Defined.

(** The document state handed from one transformer to the next: the raw page
    (a string) on entry, a DOM element (possibly null) afterwards. *)
Inductive Content :=
| Raw (html : string)
| Dom (el : option Element).

(** [c?.innerHTML]: undefined on null and on a string. *)
Definition content_innerHTML (c : Content) : option string :=
  match c with
  | Raw _ => None
  | Dom None => None
  | Dom (Some e) => Some (innerHTML e)
  end.

(** [c as HTMLElement]. *)
Definition as_element (c : Content) : option Element :=
  match c with
  | Raw _ => None
  | Dom e => e
  end.

(** Modelled from the spec: [transform] (imported as [transformer] from
    '../../transformers') is not under src.  The spec describes a stage as
    "a fixed ordered list of independent transformer steps applied
    sequentially, where each step receives the output of the previous step",
    whose steps may be asynchronous.  A chain is therefore the current
    document state and the transformers still to apply; [chain_next] hands the
    current state to the head transformer and continues with what it
    returned. *)
Record Chain := mkChain {
  current : Content;
  pending : list Transformer
}.

Definition transformer (input : Content) (transformers : list Transformer) : Chain :=
  mkChain input transformers.

Definition chain_next (output : option Element) (c : Chain)
  : option (Transformer * Content * Chain) :=
  match pending c with
  | [] => None
  | t :: rest => Some (t, current c, mkChain (Dom output) rest)
  end.

(** The list [preRender] passes to [transformer]. *)
Definition preRender_transformers (entityRef : CompoundEntityRef)
    (contentPath : string) : list Transformer :=
  [ sanitizerTransformer;
    addBaseUrl entityRef contentPath;
    rewriteDocLinks;
    addSidebarToggle;
    removeMkdocsHeader;
    simplifyMkdocsFooter;
    addGitFeedbackLink;
    stylesTransformer ].

(** [preRender]: the transformations executed prior to adding the page to
    the DOM. *)
Definition preRender (entityRef : CompoundEntityRef)
    (rawContent : string) (contentPath : string) : Chain :=
  transformer (Raw rawContent) (preRender_transformers entityRef contentPath).

(** The list [postRender] passes to [transformer]. *)
Definition postRender_transformers : list Transformer :=
  [ scrollIntoAnchor;
    scrollIntoNavigation;
    copyToClipboard;
    addLinkClickListener;
    onCssReady ].

(** [postRender]: the transformations executed after adding it to the DOM. *)
Definition postRender (transformedElement : Content) : Chain :=
  transformer transformedElement postRender_transformers.

(** Calls the render effect makes on its collaborators, tagged with the
    effect execution that makes them. *)
Inductive Call :=
| Transform (run : nat) (t : Transformer) (input : Content) (output : option Element)
| WindowScroll (run : nat) (top : Z)
| SetDom (run : nat) (el : option Element).

Definition call_run (c : Call) : nat :=
  match c with
  | Transform n _ _ _ => n
  | WindowScroll n _ => n
  | SetDom n _ => n
  end.

(** Where one execution of the render effect stands. *)
Inductive Phase :=
| PreRendering (c : Chain)   (* [preRender(rawPage, path)] not yet handled *)
| PostRendering (c : Chain)  (* suspended at [await postRender(...)] *)
| Settled.                   (* the [.then] callback has returned *)

(** One execution of the render effect: the request it closes over, its
    [shouldReplaceContent] variable (shared by the [.then] callback and the
    cleanup function), and its phase. *)
Record Run := mkRun {
  entityRef : CompoundEntityRef;
  rawPage : string;
  path : string;
  shouldReplaceContent : bool;
  phase : Phase
}.

Definition set_phase (p : Phase) (r : Run) : Run :=
  mkRun (entityRef r) (rawPage r) (path r) (shouldReplaceContent r) p.

Definition cancel (r : Run) : Run :=
  mkRun (entityRef r) (rawPage r) (path r) false (phase r).

(** The hook instance: the [dom] state, every execution of the render effect
    so far (indexed in order of creation), the execution whose cleanup React
    holds ([None] for the empty cleanup), and the calls made so far. *)
Record Hook := mkHook {
  dom : option Element;
  runs : list Run;
  cleanup : option nat;
  calls : list Call
}.

(** The hook as first rendered: [useState(null)], no effect run yet. *)
Definition mount : Hook := mkHook None [] None [].

Definition log (c : Call) (h : Hook) : Hook :=
  mkHook (dom h) (runs h) (cleanup h) (calls h ++ [c]).

Definition update_run (n : nat) (f : Run -> Run) (h : Hook) : Hook :=
  mkHook (dom h) (alter f n (runs h)) (cleanup h) (calls h).

Definition setDom (el : option Element) (h : Hook) : Hook :=
  mkHook el (runs h) (cleanup h) (calls h).

(** The cleanup React runs before the next execution of the effect:
    [() => { shouldReplaceContent = false; }] of the execution it belongs to,
    or [() => {}]. *)
Definition run_cleanup (h : Hook) : Hook :=
  match cleanup h with
  | Some n => update_run n cancel h
  | None => h
  end.

(** [rawPage] as the guard of the effect sees it: nothing when it is
    undefined or the empty string. *)
Definition present (page : option string) : option string :=
  match page with
  | Some raw => if truthy raw then Some raw else None
  | None => None
  end.

(** The body of the render effect, run when [rawPage], [path], [preRender]
    or [postRender] changed, after the cleanup of the previous execution. *)
Definition effect (ref : CompoundEntityRef) (page : option string)
    (contentPath : string) (h : Hook) : Hook :=
  let h := run_cleanup h in
  match present page with
  | None =>
      (* if (!rawPage) return () => {}; *)
      mkHook (dom h) (runs h) None (calls h)
  | Some raw =>
      mkHook (dom h)
             (runs h ++ [mkRun ref raw contentPath true
                               (PreRendering (preRender ref raw contentPath))])
             (Some (length (runs h)))
             (calls h)
  end.

(** The callback passed to [.then] on the promise of [preRender]. *)
Definition preRender_then (n : nat) (r : Run)
    (preTransformedDomElement : Content) (h : Hook) : Hook :=
  if negb (truthy_opt (content_innerHTML preTransformedDomElement)) then
    update_run n (set_phase Settled) h            (* an unexpected error occurred *)
  else if negb (shouldReplaceContent r) then
    update_run n (set_phase Settled) h            (* not the latest execution *)
  else
    let h := log (WindowScroll n 0) h in
    update_run n (set_phase (PostRendering (postRender preTransformedDomElement))) h.

(** The continuation after [await postRender(...)]. *)
Definition postRender_resume (n : nat)
    (postTransformedDomElement : Content) (h : Hook) : Hook :=
  let el := as_element postTransformedDomElement in
  let h := log (SetDom n el) h in
  let h := setDom el h in
  update_run n (set_phase Settled) h.

(** Execution [n] resumes.  While a chain has transformers left, the one in
    flight returns [output] and the chain moves on; once the chain is
    exhausted the code awaiting it runs. *)
Definition advance (n : nat) (output : option Element) (h : Hook) : Hook :=
  match runs h !! n with
  | None => h
  | Some r =>
      match phase r with
      | PreRendering c =>
          match chain_next output c with
          | Some (t, input, c') =>
              update_run n (set_phase (PreRendering c'))
                (log (Transform n t input output) h)
          | None => preRender_then n r (current c) h
          end
      | PostRendering c =>
          match chain_next output c with
          | Some (t, input, c') =>
              update_run n (set_phase (PostRendering c'))
                (log (Transform n t input output) h)
          | None => postRender_resume n (current c) h
          end
      | Settled => h
      end
  end.

(** What the host does to the hook: React runs the render effect for a new
    request, or the event loop resumes a suspended execution. *)
Inductive Event :=
| Effect (ref : CompoundEntityRef) (page : option string) (contentPath : string)
| Advance (run : nat) (output : option Element).

Definition step (h : Hook) (e : Event) : Hook :=
  match e with
  | Effect ref page contentPath => effect ref page contentPath h
  | Advance n output => advance n output h
  end.

Definition exec (evs : list Event) (h : Hook) : Hook := fold_left step evs h.

(** *** Reading the call log *)

(** The calls of execution [n], in the order they were made. *)
Definition calls_of (n : nat) (cs : list Call) : list Call :=
  filter (fun c => call_run c = n) cs.

(** The transformers applied, in order. *)
Definition transformers_of (cs : list Call) : list Transformer :=
  omap (fun c => match c with Transform _ t _ _ => Some t | _ => None end) cs.

(** The calls a chain makes when its transformers return [outs] one after
    the other: each receives what the one before returned. *)
Fixpoint applied (n : nat) (input : Content) (ts : list Transformer)
    (outs : list (option Element)) : list Call :=
  match ts, outs with
  | t :: ts', o :: outs' => Transform n t input o :: applied n (Dom o) ts' outs'
  | _, _ => []
  end.

(** The document state after the outputs [outs]. *)
Fixpoint final (input : Content) (outs : list (option Element)) : Content :=
  match outs with
  | [] => input
  | o :: outs' => final (Dom o) outs'
  end.

(** The calls one execution can have made, by phase. *)
Inductive Shape (n : nat) (ref : CompoundEntityRef) (raw contentPath : string)
  : Phase -> list Call -> Prop :=
| Shape_pre c done outs :
    done ++ pending c = preRender_transformers ref contentPath ->
    length outs = length done ->
    current c = final (Raw raw) outs ->
    Shape n ref raw contentPath (PreRendering c) (applied n (Raw raw) done outs)
| Shape_post c pre_outs done outs :
    length pre_outs = length (preRender_transformers ref contentPath) ->
    truthy_opt (content_innerHTML (final (Raw raw) pre_outs)) = true ->
    done ++ pending c = postRender_transformers ->
    length outs = length done ->
    current c = final (final (Raw raw) pre_outs) outs ->
    Shape n ref raw contentPath (PostRendering c)
      (applied n (Raw raw) (preRender_transformers ref contentPath) pre_outs
       ++ WindowScroll n 0
       :: applied n (final (Raw raw) pre_outs) done outs)
| Shape_dropped pre_outs :
    length pre_outs = length (preRender_transformers ref contentPath) ->
    Shape n ref raw contentPath Settled
      (applied n (Raw raw) (preRender_transformers ref contentPath) pre_outs)
| Shape_mounted pre_outs outs :
    length pre_outs = length (preRender_transformers ref contentPath) ->
    truthy_opt (content_innerHTML (final (Raw raw) pre_outs)) = true ->
    length outs = length postRender_transformers ->
    Shape n ref raw contentPath Settled
      (applied n (Raw raw) (preRender_transformers ref contentPath) pre_outs
       ++ WindowScroll n 0
       :: applied n (final (Raw raw) pre_outs) postRender_transformers outs
       ++ [SetDom n (as_element (final (final (Raw raw) pre_outs) outs))]).

(** The invariant of the hook: calls belong to executions that exist, and
    the calls of each execution have the shape its phase allows. *)
Definition Inv (h : Hook) : Prop :=
  (forall c, c ∈ calls h -> call_run c < length (runs h)) /\
  (forall n r, runs h !! n = Some r ->
     Shape n (entityRef r) (rawPage r) (path r) (phase r) (calls_of n (calls h))).

(** *** Lists of calls *)

Lemma calls_of_snoc n cs c :
  calls_of n (cs ++ [c]) =
  calls_of n cs ++ (if decide (call_run c = n) then [c] else []).
Proof.
  unfold calls_of. rewrite filter_app. reflexivity.
Qed.

Lemma calls_of_empty n cs :
  (forall c, c ∈ cs -> call_run c <> n) -> calls_of n cs = [].
Proof.
  intros H. unfold calls_of. induction cs as [|c cs IH]; [reflexivity|].
  rewrite filter_cons_False.
  - apply IH. intros k Hk. apply H. now right.
  - apply H. now left.
Qed.

Lemma applied_snoc n input done outs t o :
  length outs = length done ->
  applied n input (done ++ [t]) (outs ++ [o]) =
  applied n input done outs ++ [Transform n t (final input outs) o].
Proof.
  revert input outs.
  induction done as [|d done IH]; intros input [|o' outs] Hlen;
    simpl in *; try discriminate; [reflexivity|].
  f_equal. apply IH. congruence.
Qed.

Lemma final_snoc input outs o : final input (outs ++ [o]) = Dom o.
Proof.
  revert input. induction outs as [|o' outs IH]; intros input; simpl; auto.
Qed.

Lemma transformers_of_applied n input ts outs :
  length outs = length ts -> transformers_of (applied n input ts outs) = ts.
Proof.
  revert input outs.
  induction ts as [|t ts IH]; intros input [|o outs] Hlen;
    simpl in *; try discriminate; [reflexivity|].
  unfold transformers_of in *. simpl. f_equal. apply IH. congruence.
Qed.

Lemma transformers_of_app cs1 cs2 :
  transformers_of (cs1 ++ cs2) = transformers_of cs1 ++ transformers_of cs2.
Proof. unfold transformers_of. apply omap_app. Qed.

(** *** The invariant holds in every reachable state *)

Lemma Inv_mount : Inv mount.
Proof.
  split; simpl.
  - intros c Hc. inversion Hc.
  - intros n r Hr. rewrite lookup_nil in Hr. discriminate.
Qed.

(** An execution moves to phase [ph] making the calls [new]. *)
Lemma Inv_update h n r ph new d cs :
  Inv h ->
  runs h !! n = Some r ->
  (forall c, c ∈ new -> call_run c = n) ->
  cs = calls h ++ new ->
  Shape n (entityRef r) (rawPage r) (path r) ph (calls_of n (calls h) ++ new) ->
  Inv (mkHook d (alter (set_phase ph) n (runs h)) (cleanup h) cs).
Proof.
  intros [Hbound Hshape] Hr Hnew -> Hsh. split; simpl.
  - intros c [Hc|Hc]%elem_of_app; rewrite length_alter.
    + now apply Hbound.
    + rewrite (Hnew c Hc). eapply lookup_lt_Some, Hr.
  - intros m r' Hr'. unfold calls_of. rewrite filter_app. fold (calls_of m (calls h)).
    destruct (decide (n = m)) as [<-|Hne].
    + rewrite list_lookup_alter_eq, Hr in Hr'. injection Hr' as <-. simpl.
      replace (filter (fun c => call_run c = n) new) with new; [exact Hsh|].
      clear -Hnew. induction new as [|c new IH]; [reflexivity|].
      rewrite filter_cons_True by (apply Hnew; now left).
      f_equal. apply IH. intros k Hk. apply Hnew. now right.
    + rewrite list_lookup_alter_ne in Hr' by exact Hne.
      fold (calls_of m new). rewrite (calls_of_empty m new), app_nil_r.
      * now apply Hshape.
      * intros c Hc. rewrite (Hnew c Hc). exact Hne.
Qed.

Lemma Inv_run_cleanup h : Inv h -> Inv (run_cleanup h).
Proof.
  intros [Hbound Hshape]. unfold run_cleanup.
  destruct (cleanup h) as [k|]; [|now split].
  split; simpl.
  - intros c Hc. rewrite length_alter. now apply Hbound.
  - intros m r' Hr'. destruct (decide (k = m)) as [<-|Hne].
    + rewrite list_lookup_alter_eq in Hr'.
      destruct (runs h !! k) as [r|] eqn:Hr; [|discriminate].
      injection Hr' as <-. simpl. now apply Hshape.
    + rewrite list_lookup_alter_ne in Hr' by exact Hne. now apply Hshape.
Qed.

Lemma Inv_effect ref page contentPath h :
  Inv h -> Inv (effect ref page contentPath h).
Proof.
  intros H%Inv_run_cleanup. unfold effect.
  destruct (present page) as [raw|]; [|exact H].
  destruct H as [Hbound Hshape]. split; simpl.
  - intros c Hc. rewrite length_app. simpl. specialize (Hbound c Hc). lia.
  - intros m r' Hr'. apply lookup_app_Some in Hr' as [Hr'|[Hlen Hr']].
    + now apply Hshape.
    + apply list_lookup_singleton_Some in Hr' as [Hm <-]. simpl.
      rewrite calls_of_empty.
      * now apply (Shape_pre m ref raw contentPath _ [] []).
      * intros c Hc. specialize (Hbound c Hc). lia.
Qed.

Lemma chain_next_Some out c t input c' :
  chain_next out c = Some (t, input, c') ->
  pending c = t :: pending c' /\ input = current c /\ current c' = Dom out.
Proof.
  unfold chain_next. destruct (pending c) eqn:E; [discriminate|].
  intros [= <- <- <-]. auto.
Qed.

Lemma chain_next_None out c : chain_next out c = None -> pending c = [].
Proof. unfold chain_next. now destruct (pending c). Qed.

Lemma Inv_advance n out h : Inv h -> Inv (advance n out h).
Proof.
  intros H. unfold advance.
  destruct (runs h !! n) as [r|] eqn:Hr; [|exact H].
  pose proof (proj2 H n r Hr) as Hsh.
  destruct (phase r) as [c|c|] eqn:Hph; [| |exact H].
  - (* pre-rendering *)
    inversion Hsh as [c0 done outs Hdone Hlen Hcur Hc0 Htr| | |]; subst c0.
    destruct (chain_next out c) as [[[t input] c']|] eqn:Hnext.
    + apply chain_next_Some in Hnext as (Hp & -> & Hc').
      eapply (Inv_update h n r _ [Transform n t (current c) out]); eauto.
      * intros k Hk%list_elem_of_singleton. now subst k.
      * rewrite <- Htr, Hcur, <- applied_snoc by exact Hlen.
        apply Shape_pre.
        -- rewrite <- app_assoc. simpl. now rewrite <- Hp.
        -- rewrite !length_app. simpl. lia.
        -- now rewrite final_snoc.
    + apply chain_next_None in Hnext. rewrite Hnext, app_nil_r in Hdone. subst done.
      unfold preRender_then.
      destruct (truthy_opt (content_innerHTML (current c))) eqn:Htruthy; simpl.
      2:{ eapply (Inv_update h n r _ []); eauto.
          - intros k Hk. inversion Hk.
          - now rewrite app_nil_r.
          - rewrite app_nil_r, <- Htr. now apply Shape_dropped. }
      destruct (shouldReplaceContent r); simpl.
      2:{ eapply (Inv_update h n r _ []); eauto.
          - intros k Hk. inversion Hk.
          - now rewrite app_nil_r.
          - rewrite app_nil_r, <- Htr. now apply Shape_dropped. }
      eapply (Inv_update h n r _ [WindowScroll n 0]); eauto.
      * intros k Hk%list_elem_of_singleton. now subst k.
      * rewrite <- Htr.
        apply (Shape_post n _ _ _ (postRender (current c)) outs [] []); auto.
        now rewrite <- Hcur.
  - (* post-rendering *)
    inversion Hsh as [|c0 pre_outs done outs Hpre Htruthy Hdone Hlen Hcur Hc0 Htr| |]; subst c0.
    destruct (chain_next out c) as [[[t input] c']|] eqn:Hnext.
    + apply chain_next_Some in Hnext as (Hp & -> & Hc').
      eapply (Inv_update h n r _ [Transform n t (current c) out]); eauto.
      * intros k Hk%list_elem_of_singleton. now subst k.
      * rewrite <- Htr, <- app_assoc. simpl.
        rewrite Hcur, <- applied_snoc by exact Hlen.
        apply Shape_post; auto.
        -- rewrite <- app_assoc. simpl. now rewrite <- Hp.
        -- rewrite !length_app. simpl. lia.
        -- now rewrite final_snoc.
    + apply chain_next_None in Hnext. rewrite Hnext, app_nil_r in Hdone. subst done.
      unfold postRender_resume.
      eapply (Inv_update h n r _ [SetDom n (as_element (current c))]); eauto.
      * intros k Hk%list_elem_of_singleton. now subst k.
      * rewrite <- Htr, <- app_assoc. simpl. rewrite Hcur.
        now apply Shape_mounted.
Qed.

Lemma Inv_step h e : Inv h -> Inv (step h e).
Proof. destruct e; simpl; [apply Inv_effect|apply Inv_advance]. Qed.

Lemma Inv_exec evs h : Inv h -> Inv (exec evs h).
Proof.
  revert h. induction evs as [|e evs IH]; intros h H; simpl; [exact H|].
  apply IH, Inv_step, H.
Qed.

Lemma reachable_Inv evs : Inv (exec evs mount).
Proof. apply Inv_exec, Inv_mount. Qed.

Lemma reachable_Shape evs n r :
  runs (exec evs mount) !! n = Some r ->
  Shape n (entityRef r) (rawPage r) (path r) (phase r)
    (calls_of n (calls (exec evs mount))).
Proof. apply (proj2 (reachable_Inv evs)). Qed.

(** *** What a shape says about the order of calls *)

Lemma elem_of_applied n input ts outs k :
  k ∈ applied n input ts outs ->
  exists t i o, k = Transform n t i o /\ t ∈ ts.
Proof.
  revert input outs.
  induction ts as [|t ts IH]; intros input [|o outs] Hk; simpl in Hk;
    try (now inversion Hk).
  apply elem_of_cons in Hk as [->|Hk].
  - exists t, input, o. split; [reflexivity|now left].
  - destruct (IH _ _ Hk) as (t' & i & o' & -> & Ht').
    exists t', i, o'. split; [reflexivity|now right].
Qed.

Lemma transformers_of_scroll n top cs :
  transformers_of (WindowScroll n top :: cs) = transformers_of cs.
Proof. reflexivity. Qed.

Lemma Shape_prefix n ref raw contentPath ph tr :
  Shape n ref raw contentPath ph tr ->
  transformers_of tr `prefix_of`
    (preRender_transformers ref contentPath ++ postRender_transformers).
Proof.
  intros [c done outs Hdone Hlen Hcur
         |c pre_outs done outs Hpre Htruthy Hdone Hlen Hcur
         |pre_outs Hpre
         |pre_outs outs Hpre Htruthy Hlen].
  - rewrite transformers_of_applied by exact Hlen.
    rewrite <- Hdone, <- app_assoc. now apply prefix_app_r.
  - rewrite transformers_of_app, transformers_of_scroll,
      !transformers_of_applied by assumption.
    rewrite <- Hdone. apply prefix_app, prefix_app_r. reflexivity.
  - rewrite transformers_of_applied by exact Hpre. now apply prefix_app_r.
  - rewrite transformers_of_app, transformers_of_scroll, transformers_of_app,
      !transformers_of_applied by assumption.
    change (transformers_of [SetDom _ _]) with (@nil Transformer).
    now rewrite app_nil_r.
Qed.

(** The calls of an execution whose pre-render promise has resolved and
    whose [.then] callback has not run yet. *)
Lemma Shape_pre_resolved n ref raw contentPath c tr :
  Shape n ref raw contentPath (PreRendering c) tr ->
  pending c = [] ->
  exists outs,
    length outs = length (preRender_transformers ref contentPath) /\
    tr = applied n (Raw raw) (preRender_transformers ref contentPath) outs /\
    current c = final (Raw raw) outs.
Proof.
  intros Hsh Hp.
  inversion Hsh as [c0 done outs Hdone Hlen Hcur Hc0 Htr| | |]; subst c0.
  rewrite Hp, app_nil_r in Hdone. subst done. now exists outs.
Qed.

(** *** Steps of one execution leave the others alone *)

Lemma advance_other m n out h :
  m <> n ->
  runs (advance m out h) !! n = runs h !! n /\
  calls_of n (calls (advance m out h)) = calls_of n (calls h).
Proof.
  intros Hne. unfold advance.
  destruct (runs h !! m) as [r|]; [|now split].
  assert (Hsnoc : forall k, call_run k = m ->
            calls_of n (calls h ++ [k]) = calls_of n (calls h)).
  { intros k Hk. rewrite calls_of_snoc, decide_False, app_nil_r; congruence. }
  destruct (phase r) as [c|c|]; [| |now split].
  - destruct (chain_next out c) as [[[t input] c']|]; simpl.
    + now rewrite list_lookup_alter_ne, Hsnoc.
    + unfold preRender_then.
      destruct (negb _); simpl; [now rewrite list_lookup_alter_ne|].
      destruct (negb _); simpl; [now rewrite list_lookup_alter_ne|].
      now rewrite list_lookup_alter_ne, Hsnoc.
  - destruct (chain_next out c) as [[[t input] c']|]; simpl.
    + now rewrite list_lookup_alter_ne, Hsnoc.
    + now rewrite list_lookup_alter_ne, Hsnoc.
Qed.

Lemma run_cleanup_lookup h n r :
  runs h !! n = Some r ->
  exists r', runs (run_cleanup h) !! n = Some r' /\
    entityRef r' = entityRef r /\ rawPage r' = rawPage r /\ path r' = path r /\
    phase r' = phase r /\
    (shouldReplaceContent r' = shouldReplaceContent r \/
     cleanup h = Some n /\ shouldReplaceContent r' = false).
Proof.
  intros Hr. unfold run_cleanup.
  destruct (cleanup h) as [k|] eqn:Hk; [|exists r; auto 10].
  simpl. destruct (decide (k = n)) as [->|Hne].
  - rewrite list_lookup_alter_eq, Hr. exists (cancel r). simpl. auto 10.
  - rewrite list_lookup_alter_ne by exact Hne. exists r. auto 10.
Qed.

Lemma effect_lookup ref page contentPath h n r :
  runs h !! n = Some r ->
  exists r', runs (effect ref page contentPath h) !! n = Some r' /\
    entityRef r' = entityRef r /\ rawPage r' = rawPage r /\ path r' = path r /\
    phase r' = phase r /\
    (shouldReplaceContent r' = shouldReplaceContent r \/
     cleanup h = Some n /\ shouldReplaceContent r' = false).
Proof.
  intros Hr. destruct (run_cleanup_lookup h n r Hr) as (r' & Hr' & H).
  exists r'. split; [|exact H]. unfold effect.
  destruct (present page); [|exact Hr']. simpl. now apply lookup_app_l_Some.
Qed.

Lemma effect_calls ref page contentPath h :
  calls (effect ref page contentPath h) = calls h.
Proof.
  unfold effect, run_cleanup.
  destruct (cleanup h); destruct (present page); reflexivity.
Qed.

Lemma elem_of_calls_of n cs k :
  k ∈ calls_of n cs <-> call_run k = n /\ k ∈ cs.
Proof. unfold calls_of. now rewrite list_elem_of_filter. Qed.

(** *** A settled execution makes no further call *)

Lemma settled_step h e n r :
  runs h !! n = Some r -> phase r = Settled ->
  (exists r', runs (step h e) !! n = Some r' /\ phase r' = Settled) /\
  calls_of n (calls (step h e)) = calls_of n (calls h).
Proof.
  intros Hr Hph. destruct e as [ref page p|m out]; simpl.
  - destruct (effect_lookup ref page p h n r Hr)
      as (r' & Hr' & _ & _ & _ & Hph' & _).
    split; [exists r'; split; congruence|]. now rewrite effect_calls.
  - destruct (decide (m = n)) as [->|Hne].
    + unfold advance. rewrite Hr, Hph. eauto.
    + destruct (advance_other m n out h Hne) as [-> ->]. eauto.
Qed.

Lemma settled_exec evs h n r :
  runs h !! n = Some r -> phase r = Settled ->
  calls_of n (calls (exec evs h)) = calls_of n (calls h).
Proof.
  revert h r. induction evs as [|e evs IH]; intros h r Hr Hph; simpl; [reflexivity|].
  destruct (settled_step h e n r Hr Hph) as [(r' & Hr' & Hph') Hcalls].
  rewrite (IH _ r' Hr' Hph'). exact Hcalls.
Qed.

(** *** An execution cancelled before its commit check never commits *)

(** The cleanup has run and the [.then] callback has not passed its check. *)
Definition superseded (r : Run) : Prop :=
  shouldReplaceContent r = false /\ forall c, phase r <> PostRendering c.

Lemma superseded_step h e n r :
  runs h !! n = Some r -> superseded r ->
  (exists r', runs (step h e) !! n = Some r' /\ superseded r') /\
  (forall k, k ∈ calls (step h e) -> call_run k = n ->
     k ∈ calls h \/ exists t i o, k = Transform n t i o).
Proof.
  intros Hr [Hflag Hph]. destruct e as [ref page p|m out]; simpl.
  - destruct (effect_lookup ref page p h n r Hr)
      as (r' & Hr' & _ & _ & _ & Hph' & Hflag').
    split.
    + exists r'. split; [exact Hr'|]. split.
      * destruct Hflag' as [->|[_ ->]]; auto.
      * now rewrite Hph'.
    + rewrite effect_calls. auto.
  - destruct (decide (m = n)) as [->|Hne].
    + unfold advance. rewrite Hr.
      destruct (phase r) as [c|c|] eqn:Ephase; [|now destruct (Hph c)|].
      * destruct (chain_next out c) as [[[t input] c']|]; simpl.
        -- split.
           ++ rewrite list_lookup_alter_eq, Hr. simpl. eexists. split; [reflexivity|].
              split; [exact Hflag|now simpl].
           ++ intros k [Hk|Hk%list_elem_of_singleton]%elem_of_app _; eauto.
        -- unfold preRender_then. rewrite Hflag.
           assert (Hsettle : exists r',
                     runs (update_run n (set_phase Settled) h) !! n = Some r' /\
                     superseded r').
           { simpl. rewrite list_lookup_alter_eq, Hr. simpl.
             eexists. split; [reflexivity|]. split; [exact Hflag|now simpl]. }
           destruct (negb (truthy_opt _)); simpl; (split; [exact Hsettle|auto]).
      * split; [|auto]. exists r. split; [exact Hr|]. split; [exact Hflag|].
        now rewrite Ephase.
    + destruct (advance_other m n out h Hne) as [Hruns Hcalls]. split.
      * rewrite Hruns. exists r. split; [exact Hr|now split].
      * intros k Hk Hn. left.
        assert (Hin : k ∈ calls_of n (calls (advance m out h)))
          by now apply elem_of_calls_of.
        rewrite Hcalls in Hin. now apply elem_of_calls_of in Hin.
Qed.

Lemma superseded_exec evs h n r :
  runs h !! n = Some r -> superseded r ->
  forall k, k ∈ calls (exec evs h) -> call_run k = n ->
    k ∈ calls h \/ exists t i o, k = Transform n t i o.
Proof.
  revert h r. induction evs as [|e evs IH]; intros h r Hr Hs k Hk Hn; simpl in Hk.
  - now left.
  - destruct (superseded_step h e n r Hr Hs) as [(r' & Hr' & Hs') Hnew].
    destruct (IH _ r' Hr' Hs' k Hk Hn) as [Hold|Htr]; [|now right].
    now apply Hnew.
Qed.

(** *** An uninterrupted request runs to its [setDom] *)

Lemma exec_app evs1 evs2 h : exec (evs1 ++ evs2) h = exec evs2 (exec evs1 h).
Proof. apply fold_left_app. Qed.

Lemma applied_nil n input ts : applied n input ts [] = [].
Proof. now destruct ts. Qed.

(** Execution [n] resumes once per output of [outs]. *)
Definition resumes (n : nat) (outs : list (option Element)) : list Event :=
  map (Advance n) outs.

(** While its chain has transformers left, an execution that resumes stays
    in its stage and applies them one by one. *)
Lemma resumes_in_stage (stage : Chain -> Phase) outs :
  stage = PreRendering \/ stage = PostRendering ->
  forall h n r c,
    runs h !! n = Some r ->
    phase r = stage c ->
    length outs <= length (pending c) ->
    runs (exec (resumes n outs) h) !! n =
      Some (set_phase
              (stage (mkChain (final (current c) outs)
                              (drop (length outs) (pending c)))) r) /\
    calls (exec (resumes n outs) h) =
      calls h ++ applied n (current c) (pending c) outs /\
    dom (exec (resumes n outs) h) = dom h /\
    cleanup (exec (resumes n outs) h) = cleanup h.
Proof.
  intros Hstage.
  induction outs as [|o outs IH]; intros h n r c Hr Hph Hlen; simpl.
  - rewrite applied_nil, app_nil_r, drop_0. repeat split; try reflexivity.
    rewrite Hr. f_equal. destruct r, c. simpl in *. now subst.
  - destruct (pending c) as [|t ts] eqn:Hp; simpl in Hlen; [lia|].
    assert (Hadv : advance n o h =
              update_run n (set_phase (stage (mkChain (Dom o) ts)))
                (log (Transform n t (current c) o) h)).
    { unfold advance, chain_next. rewrite Hr, Hph.
      destruct Hstage as [->| ->]; now rewrite Hp. }
    rewrite Hadv.
    edestruct (IH (update_run n (set_phase (stage (mkChain (Dom o) ts)))
                     (log (Transform n t (current c) o) h))
                  n (set_phase (stage (mkChain (Dom o) ts)) r) (mkChain (Dom o) ts))
      as (Hruns & Hcalls & Hdom & Hcl).
    + simpl. now rewrite list_lookup_alter_eq, Hr.
    + reflexivity.
    + simpl. lia.
    + rewrite Hruns, Hcalls, Hdom, Hcl. simpl. rewrite <- app_assoc.
      repeat split; reflexivity.
Qed.

(** A request that nothing interrupts: the effect runs on a non-empty page,
    the eight pre-render transformers return (the last one a non-empty
    element), the [.then] callback runs, the five post-render transformers
    return, and the execution resumes after the await.  The hook then holds
    the last output, and the log has grown by the eight pre-render calls,
    the scroll, the five post-render calls and the [setDom]. *)
Theorem uninterrupted_request_mounts h ref raw contentPath pre_outs post_outs :
  truthy raw = true ->
  length pre_outs = 8 ->
  truthy_opt (content_innerHTML (final (Raw raw) pre_outs)) = true ->
  length post_outs = 5 ->
  let n := length (runs h) in
  let h' := exec (Effect ref (Some raw) contentPath
                    :: resumes n pre_outs ++ Advance n None
                    :: resumes n post_outs ++ [Advance n None]) h in
  dom h' = as_element (final (final (Raw raw) pre_outs) post_outs) /\
  calls h' =
    calls h
    ++ applied n (Raw raw) (preRender_transformers ref contentPath) pre_outs
    ++ WindowScroll n 0
    :: applied n (final (Raw raw) pre_outs) postRender_transformers post_outs
    ++ [SetDom n (as_element (final (final (Raw raw) pre_outs) post_outs))].
Proof.
  intros Hraw Hpre Htruthy Hpost n h'. subst h'.
  change (exec (?e :: ?evs) h) with (exec evs (step h e)).
  set (r0 := mkRun ref raw contentPath true
               (PreRendering (preRender ref raw contentPath))).
  set (h0 := step h (Effect ref (Some raw) contentPath)).
  assert (Hlen0 : length (runs (run_cleanup h)) = n).
  { unfold run_cleanup. destruct (cleanup h); simpl; [apply length_alter|reflexivity]. }
  assert (Hr0 : runs h0 !! n = Some r0).
  { subst h0. simpl. unfold effect, present. rewrite Hraw. simpl.
    rewrite lookup_app_r by lia. now rewrite Hlen0, Nat.sub_diag. }
  assert (Hcalls0 : calls h0 = calls h) by apply effect_calls.
  rewrite exec_app.
  destruct (resumes_in_stage PreRendering pre_outs (or_introl eq_refl)
              h0 n r0 (preRender ref raw contentPath) Hr0 eq_refl)
    as (Hr1 & Hcalls1 & _ & _); [simpl; lia|].
  set (h1 := exec (resumes n pre_outs) h0) in *.
  change (exec (?e :: ?evs) h1) with (exec evs (step h1 e)).
  rewrite Hpre in Hr1. simpl in Hr1.
  set (h2 := step h1 (Advance n None)).
  assert (Hh2 : h2 = update_run n
                  (set_phase (PostRendering (postRender (final (Raw raw) pre_outs))))
                  (log (WindowScroll n 0) h1)).
  { subst h2. simpl. unfold advance, chain_next, preRender_then.
    rewrite Hr1. simpl. now rewrite Htruthy. }
  rewrite exec_app.
  destruct (resumes_in_stage PostRendering post_outs (or_intror eq_refl)
              h2 n
              (set_phase (PostRendering (postRender (final (Raw raw) pre_outs))) r0)
              (postRender (final (Raw raw) pre_outs)))
    as (Hr3 & Hcalls3 & _ & _).
  { rewrite Hh2. simpl. now rewrite list_lookup_alter_eq, Hr1. }
  { reflexivity. }
  { simpl. lia. }
  set (h3 := exec (resumes n post_outs) h2) in *.
  rewrite Hpost in Hr3. simpl in Hr3.
  simpl. unfold advance, chain_next, postRender_resume. rewrite Hr3. simpl.
  split; [reflexivity|].
  rewrite Hcalls3, Hh2. simpl. rewrite Hcalls1, Hcalls0.
  now rewrite <- !app_assoc.
Qed.

(** *** Example requests and schedules *)

Definition docs : CompoundEntityRef := mkEntityRef "component" "default" "docs".

(** A non-empty element and an element with empty [innerHTML]. *)
Definition page (k : nat) : option Element := Some (mkElement k "<p>page</p>" "page").
Definition blank (k : nat) : option Element := Some (mkElement k "" "").

(** The request for page "one" with its eight pre-render transformers
    returned; the [.then] callback has not run yet. *)
Definition one_pre_rendered : list Event :=
  Effect docs (Some "<h1>one</h1>") "one" :: resumes 0 (map page (seq 1 8)).

(** The same with a last transformer that hands back an empty element. *)
Definition one_pre_rendered_blank : list Event :=
  Effect docs (Some "<h1>one</h1>") "one"
  :: resumes 0 (map page (seq 1 7) ++ [blank 8]).

(** Request "one" passes its check and is suspended in [postRender];
    request "two" arrives, runs to its [setDom]; then "one" resumes and runs
    to its own [setDom]. *)
Definition superseded_during_postRender : list Event :=
  one_pre_rendered
  ++ [Advance 0 None]
  ++ Effect docs (Some "<h1>two</h1>") "two" :: resumes 1 (map page (seq 21 8))
  ++ [Advance 1 None]
  ++ resumes 1 (map page (seq 29 5))
  ++ [Advance 1 None]
  ++ resumes 0 (map page (seq 9 5))
  ++ [Advance 0 None].

(** The [setDom] calls of a log. *)
Definition is_setDom (c : Call) : bool :=
  match c with
  | SetDom _ _ => true
  | _ => false
  end.

Definition mounts (cs : list Call) : list Call := List.filter is_setDom cs.

(** *** The claims about the pipeline *)

(** C7. When the promise of [preRender] has resolved (its chain is
    exhausted and the [.then] callback is about to run), the execution has
    applied exactly eight transformers: the sanitizer on the raw page, then
    addBaseUrl, rewriteDocLinks, addSidebarToggle, removeMkdocsHeader,
    simplifyMkdocsFooter, addGitFeedbackLink and the styles transformer, each
    on the output of the one before; the callback receives the last output. *)
Theorem preRender_applies_eight_in_order evs n r c :
  runs (exec evs mount) !! n = Some r ->
  phase r = PreRendering c ->
  pending c = [] ->
  exists o1 o2 o3 o4 o5 o6 o7 o8,
    calls_of n (calls (exec evs mount)) =
      [ Transform n sanitizerTransformer (Raw (rawPage r)) o1;
        Transform n (addBaseUrl (entityRef r) (path r)) (Dom o1) o2;
        Transform n rewriteDocLinks (Dom o2) o3;
        Transform n addSidebarToggle (Dom o3) o4;
        Transform n removeMkdocsHeader (Dom o4) o5;
        Transform n simplifyMkdocsFooter (Dom o5) o6;
        Transform n addGitFeedbackLink (Dom o6) o7;
        Transform n stylesTransformer (Dom o7) o8 ] /\
    current c = Dom o8.
Proof.
  intros Hr Hph Hp. pose proof (reachable_Shape evs n r Hr) as Hsh.
  rewrite Hph in Hsh.
  destruct (Shape_pre_resolved _ _ _ _ _ _ Hsh Hp) as (outs & Hlen & -> & ->).
  do 9 (destruct outs as [|? outs]; try discriminate Hlen).
  do 8 eexists. split; reflexivity.
Qed.

Lemma preRender_applies_eight_in_order_witness :
  exists o1 o2 o3 o4 o5 o6 o7 o8,
    calls_of 0 (calls (exec one_pre_rendered mount)) =
      [ Transform 0 sanitizerTransformer (Raw "<h1>one</h1>") o1;
        Transform 0 (addBaseUrl docs "one") (Dom o1) o2;
        Transform 0 rewriteDocLinks (Dom o2) o3;
        Transform 0 addSidebarToggle (Dom o3) o4;
        Transform 0 removeMkdocsHeader (Dom o4) o5;
        Transform 0 simplifyMkdocsFooter (Dom o5) o6;
        Transform 0 addGitFeedbackLink (Dom o6) o7;
        Transform 0 stylesTransformer (Dom o7) o8 ] /\
    current (mkChain (Dom (page 8)) []) = Dom o8.
Proof.
  exact (preRender_applies_eight_in_order one_pre_rendered 0
           (mkRun docs "<h1>one</h1>" "one" true
                  (PreRendering (mkChain (Dom (page 8)) [])))
           (mkChain (Dom (page 8)) []) eq_refl eq_refl eq_refl).
Defined.

(** The outputs handed to execution [n] by a list of events, in order. *)
Definition outputs_for (n : nat) (evs : list Event) : list (option Element) :=
  omap (fun e =>
          match e with
          | Advance m output => if decide (m = n) then Some output else None
          | Effect _ _ _ => None
          end) evs.

(** Once an execution is post-rendering, what it calls depends on nothing
    but the outputs it is resumed with: whatever else runs in between, it
    applies the transformers it has left to these outputs in order, and
    when resumed once more it calls [setDom] on the last output. *)
Lemma postRender_projection n evs :
  forall h r c,
    runs h !! n = Some r ->
    phase r = PostRendering c ->
    calls_of n (calls (exec evs h)) =
      calls_of n (calls h)
      ++ applied n (current c) (pending c) (outputs_for n evs)
      ++ (if decide (length (pending c) < length (outputs_for n evs))
          then [SetDom n (as_element
                            (final (current c)
                               (take (length (pending c)) (outputs_for n evs))))]
          else []).
Proof.
  induction evs as [|e evs IH]; intros h r c Hr Hph.
  - simpl. rewrite applied_nil.
    now rewrite !app_nil_r.
  - destruct e as [ref page' contentPath|m out].
    + change (exec (Effect ref page' contentPath :: evs) h)
        with (exec evs (effect ref page' contentPath h)).
      destruct (effect_lookup ref page' contentPath h n r Hr)
        as (r' & Hr' & _ & _ & _ & Hph' & _).
      rewrite Hph in Hph'.
      rewrite (IH _ r' c Hr' Hph'), effect_calls. reflexivity.
    + change (exec (Advance m out :: evs) h) with (exec evs (advance m out h)).
      destruct (decide (m = n)) as [->|Hne].
      * assert (Houts : outputs_for n (Advance n out :: evs) = out :: outputs_for n evs).
        { unfold outputs_for. simpl. now rewrite decide_True. }
        rewrite Houts. clear Houts.
        destruct (pending c) as [|t ts] eqn:Hp.
        -- assert (Hadv : advance n out h = postRender_resume n (current c) h).
           { unfold advance, chain_next. now rewrite Hr, Hph, Hp. }
           rewrite Hadv.
           rewrite (settled_exec evs _ n (set_phase Settled r)).
           ++ simpl. rewrite calls_of_snoc. simpl. now rewrite decide_True.
           ++ simpl. now rewrite list_lookup_alter_eq, Hr.
           ++ reflexivity.
        -- assert (Hadv : advance n out h =
                     update_run n (set_phase (PostRendering (mkChain (Dom out) ts)))
                       (log (Transform n t (current c) out) h)).
           { unfold advance, chain_next. now rewrite Hr, Hph, Hp. }
           rewrite Hadv.
           rewrite (IH _ (set_phase (PostRendering (mkChain (Dom out) ts)) r)
                      (mkChain (Dom out) ts)).
           ++ simpl. rewrite calls_of_snoc. simpl. rewrite decide_True by reflexivity.
              rewrite <- app_assoc. simpl.
              destruct (decide (length ts < length (outputs_for n evs)));
                destruct (decide (S (length ts) < S (length (outputs_for n evs))));
                try lia; reflexivity.
           ++ simpl. now rewrite list_lookup_alter_eq, Hr.
           ++ reflexivity.
      * assert (Houts : outputs_for n (Advance m out :: evs) = outputs_for n evs).
        { unfold outputs_for. simpl. now rewrite decide_False. }
        rewrite Houts. clear Houts.
        destruct (advance_other m n out h Hne) as [Hruns Hcalls].
        rewrite <- Hruns in Hr. rewrite (IH _ r c Hr Hph), Hcalls. reflexivity.
Qed.

(** C8. Take an execution whose pre-render promise has resolved with a
    non-empty output while it is still current, let its [.then] callback
    run, and then let anything happen: other requests, other executions,
    and this one resumed with outputs [o1, o2, ...].  Its calls are then
    exactly: the eight pre-render transformers, each on the output of the
    one before; [window.scroll]; scrollIntoAnchor on the pre-render output,
    then scrollIntoNavigation, copyToClipboard, addLinkClickListener and
    onCssReady, each on the output of the one before, as far as it has
    been resumed; and [setDom] once it is resumed after the fifth.  So
    every pre-render transformer has returned before any post-render one
    is applied, and the post-render ones are applied in the declared
    order.  Moreover in every reachable state the transformers any
    execution has applied are an initial segment of the thirteen. *)
Theorem postRender_follows_preRender_in_order evs n r c out evs' :
  runs (exec evs mount) !! n = Some r ->
  phase r = PreRendering c ->
  pending c = [] ->
  truthy_opt (content_innerHTML (current c)) = true ->
  shouldReplaceContent r = true ->
  (exists pre_outs,
     length pre_outs = 8 /\
     current c = final (Raw (rawPage r)) pre_outs /\
     calls_of n (calls (exec (Advance n out :: evs') (exec evs mount))) =
       applied n (Raw (rawPage r))
         [ sanitizerTransformer; addBaseUrl (entityRef r) (path r);
           rewriteDocLinks; addSidebarToggle; removeMkdocsHeader;
           simplifyMkdocsFooter; addGitFeedbackLink; stylesTransformer ]
         pre_outs
       ++ WindowScroll n 0
       :: applied n (current c)
            [ scrollIntoAnchor; scrollIntoNavigation; copyToClipboard;
              addLinkClickListener; onCssReady ]
            (outputs_for n evs')
       ++ (if decide (5 < length (outputs_for n evs'))
           then [SetDom n (as_element
                             (final (current c) (take 5 (outputs_for n evs'))))]
           else [])) /\
  (forall evs0 m r0,
     runs (exec evs0 mount) !! m = Some r0 ->
     transformers_of (calls_of m (calls (exec evs0 mount))) `prefix_of`
       [ sanitizerTransformer; addBaseUrl (entityRef r0) (path r0); rewriteDocLinks;
         addSidebarToggle; removeMkdocsHeader; simplifyMkdocsFooter;
         addGitFeedbackLink; stylesTransformer;
         scrollIntoAnchor; scrollIntoNavigation; copyToClipboard;
         addLinkClickListener; onCssReady ]).
Proof.
  intros Hr Hph Hp Htruthy Hflag. split.
  - pose proof (reachable_Shape evs n r Hr) as Hsh. rewrite Hph in Hsh.
    destruct (Shape_pre_resolved _ _ _ _ _ _ Hsh Hp) as (outs & Hlen & Htr & Hcur).
    exists outs. split; [exact Hlen|]. split; [exact Hcur|].
    set (h := exec evs mount) in *.
    change (exec (Advance n out :: evs') h) with (exec evs' (advance n out h)).
    assert (Hadv : advance n out h =
              update_run n (set_phase (PostRendering (postRender (current c))))
                (log (WindowScroll n 0) h)).
    { unfold advance, chain_next, preRender_then.
      now rewrite Hr, Hph, Hp, Htruthy, Hflag. }
    rewrite Hadv.
    rewrite (postRender_projection n evs' _
               (set_phase (PostRendering (postRender (current c))) r)
               (postRender (current c))).
    + simpl. rewrite calls_of_snoc. simpl. rewrite decide_True by reflexivity.
      rewrite Htr, <- app_assoc. reflexivity.
    + simpl. now rewrite list_lookup_alter_eq, Hr.
    + reflexivity.
  - intros evs0 m r0 Hr0.
    exact (Shape_prefix _ _ _ _ _ _ (reachable_Shape evs0 m r0 Hr0)).
Qed.

(** What follows request "one" in [superseded_during_postRender] once its
    [.then] callback has run. *)
Definition after_commit_of_one : list Event :=
  Effect docs (Some "<h1>two</h1>") "two" :: resumes 1 (map page (seq 21 8))
  ++ [Advance 1 None]
  ++ resumes 1 (map page (seq 29 5))
  ++ [Advance 1 None]
  ++ resumes 0 (map page (seq 9 5))
  ++ [Advance 0 None].

Lemma postRender_follows_preRender_in_order_witness :
  (exists pre_outs,
     length pre_outs = 8 /\
     Dom (page 8) = final (Raw "<h1>one</h1>") pre_outs /\
     calls_of 0 (calls (exec (Advance 0 None :: after_commit_of_one)
                           (exec one_pre_rendered mount))) =
       applied 0 (Raw "<h1>one</h1>")
         [ sanitizerTransformer; addBaseUrl docs "one";
           rewriteDocLinks; addSidebarToggle; removeMkdocsHeader;
           simplifyMkdocsFooter; addGitFeedbackLink; stylesTransformer ]
         pre_outs
       ++ [ WindowScroll 0 0;
            Transform 0 scrollIntoAnchor (Dom (page 8)) (page 9);
            Transform 0 scrollIntoNavigation (Dom (page 9)) (page 10);
            Transform 0 copyToClipboard (Dom (page 10)) (page 11);
            Transform 0 addLinkClickListener (Dom (page 11)) (page 12);
            Transform 0 onCssReady (Dom (page 12)) (page 13);
            SetDom 0 (page 13) ]) /\
  (forall evs0 m r0,
     runs (exec evs0 mount) !! m = Some r0 ->
     transformers_of (calls_of m (calls (exec evs0 mount))) `prefix_of`
       [ sanitizerTransformer; addBaseUrl (entityRef r0) (path r0); rewriteDocLinks;
         addSidebarToggle; removeMkdocsHeader; simplifyMkdocsFooter;
         addGitFeedbackLink; stylesTransformer;
         scrollIntoAnchor; scrollIntoNavigation; copyToClipboard;
         addLinkClickListener; onCssReady ]).
Proof.
  exact (postRender_follows_preRender_in_order one_pre_rendered 0
           (mkRun docs "<h1>one</h1>" "one" true
                  (PreRendering (mkChain (Dom (page 8)) [])))
           (mkChain (Dom (page 8)) []) None after_commit_of_one
           eq_refl eq_refl eq_refl eq_refl eq_refl).
Defined.

Lemma preRender_not_postRender ref contentPath t :
  t ∈ preRender_transformers ref contentPath -> t ∉ postRender_transformers.
Proof.
  unfold preRender_transformers, postRender_transformers.
  rewrite !elem_of_cons, !elem_of_nil. intros Hpre Hpost.
  destruct Hpre as [->|[->|[->|[->|[->|[->|[->|[->|[]]]]]]]]];
    destruct Hpost as [?|[?|[?|[?|[?|[]]]]]]; discriminate.
Qed.

(** C10. When the [.then] callback finds a non-empty pre-render output and
    its execution still current, it calls [window.scroll({top: 0})]: the call
    is the one thing the step adds to the log, no post-render transformer of
    the execution has been applied before it, and all five are still to be
    applied after it. *)
Theorem commit_scrolls_to_top_before_postRender evs n r c out :
  runs (exec evs mount) !! n = Some r ->
  phase r = PreRendering c ->
  pending c = [] ->
  truthy_opt (content_innerHTML (current c)) = true ->
  shouldReplaceContent r = true ->
  calls (step (exec evs mount) (Advance n out)) =
    calls (exec evs mount) ++ [WindowScroll n 0] /\
  (forall t i o, Transform n t i o ∈ calls (exec evs mount) ->
     t ∉ postRender_transformers) /\
  exists r', runs (step (exec evs mount) (Advance n out)) !! n = Some r' /\
    phase r' = PostRendering
      (mkChain (current c)
         [ scrollIntoAnchor; scrollIntoNavigation; copyToClipboard;
           addLinkClickListener; onCssReady ]).
Proof.
  intros Hr Hph Hp Htruthy Hflag.
  pose proof (reachable_Shape evs n r Hr) as Hsh. rewrite Hph in Hsh.
  destruct (Shape_pre_resolved _ _ _ _ _ _ Hsh Hp) as (outs & Hlen & Htr & Hcur).
  simpl. unfold advance, chain_next, preRender_then.
  rewrite Hr, Hph, Hp, Htruthy, Hflag. simpl.
  split; [reflexivity|]. split.
  - intros t i o Hin.
    assert (Hin' : Transform n t i o ∈ calls_of n (calls (exec evs mount)))
      by now apply elem_of_calls_of.
    rewrite Htr in Hin'.
    apply elem_of_applied in Hin' as (t' & i' & o' & [= <- <- <-] & Ht).
    eapply preRender_not_postRender, Ht.
  - rewrite list_lookup_alter_eq, Hr. simpl. eexists. split; reflexivity.
Qed.

Lemma commit_scrolls_to_top_before_postRender_witness :
  calls (step (exec one_pre_rendered mount) (Advance 0 None)) =
    calls (exec one_pre_rendered mount) ++ [WindowScroll 0 0] /\
  (forall t i o, Transform 0 t i o ∈ calls (exec one_pre_rendered mount) ->
     t ∉ postRender_transformers) /\
  exists r', runs (step (exec one_pre_rendered mount) (Advance 0 None)) !! 0 = Some r' /\
    phase r' = PostRendering
      (mkChain (Dom (page 8))
         [ scrollIntoAnchor; scrollIntoNavigation; copyToClipboard;
           addLinkClickListener; onCssReady ]).
Proof.
  exact (commit_scrolls_to_top_before_postRender one_pre_rendered 0
           (mkRun docs "<h1>one</h1>" "one" true
                  (PreRendering (mkChain (Dom (page 8)) [])))
           (mkChain (Dom (page 8)) []) None
           eq_refl eq_refl eq_refl eq_refl eq_refl).
Defined.

(** C2. When the pre-render output is null or has an empty [innerHTML], the
    [.then] callback returns at once: the step leaves [dom] and the call log
    as they were, and whatever happens afterwards the execution never makes
    another call, so all it ever did is apply pre-render transformers: no
    [window.scroll], no post-render transformer, no [setDom]. *)
Theorem empty_preRender_output_is_silent_noop evs n r c out evs' :
  runs (exec evs mount) !! n = Some r ->
  phase r = PreRendering c ->
  pending c = [] ->
  truthy_opt (content_innerHTML (current c)) = false ->
  dom (step (exec evs mount) (Advance n out)) = dom (exec evs mount) /\
  calls (step (exec evs mount) (Advance n out)) = calls (exec evs mount) /\
  forall k,
    k ∈ calls (exec evs' (step (exec evs mount) (Advance n out))) ->
    call_run k = n ->
    exists t i o, k = Transform n t i o /\
      t ∈ preRender_transformers (entityRef r) (path r) /\
      t ∉ postRender_transformers.
Proof.
  intros Hr Hph Hp Hfalsy.
  pose proof (reachable_Shape evs n r Hr) as Hsh. rewrite Hph in Hsh.
  destruct (Shape_pre_resolved _ _ _ _ _ _ Hsh Hp) as (outs & Hlen & Htr & Hcur).
  set (h := exec evs mount) in *.
  assert (Hstep : step h (Advance n out) = update_run n (set_phase Settled) h).
  { simpl. unfold advance, chain_next, preRender_then.
    now rewrite Hr, Hph, Hp, Hfalsy. }
  rewrite Hstep. split; [reflexivity|]. split; [reflexivity|].
  intros k Hk Hn.
  assert (Hin : k ∈ calls_of n (calls (exec evs' (update_run n (set_phase Settled) h))))
    by now apply elem_of_calls_of.
  rewrite (settled_exec evs' _ n (set_phase Settled r)) in Hin.
  - simpl in Hin. rewrite Htr in Hin.
    apply elem_of_applied in Hin as (t & i & o & -> & Ht).
    exists t, i, o. split; [reflexivity|]. split; [exact Ht|].
    eapply preRender_not_postRender, Ht.
  - simpl. now rewrite list_lookup_alter_eq, Hr.
  - reflexivity.
Qed.

Lemma empty_preRender_output_is_silent_noop_witness :
  dom (step (exec one_pre_rendered_blank mount) (Advance 0 None)) =
    dom (exec one_pre_rendered_blank mount) /\
  calls (step (exec one_pre_rendered_blank mount) (Advance 0 None)) =
    calls (exec one_pre_rendered_blank mount) /\
  forall k,
    k ∈ calls (exec (resumes 0 (map page (seq 9 6)))
                 (step (exec one_pre_rendered_blank mount) (Advance 0 None))) ->
    call_run k = 0 ->
    exists t i o, k = Transform 0 t i o /\
      t ∈ preRender_transformers docs "one" /\
      t ∉ postRender_transformers.
Proof.
  exact (empty_preRender_output_is_silent_noop one_pre_rendered_blank 0
           (mkRun docs "<h1>one</h1>" "one" true
                  (PreRendering (mkChain (Dom (blank 8)) [])))
           (mkChain (Dom (blank 8)) []) None (resumes 0 (map page (seq 9 6)))
           eq_refl eq_refl eq_refl eq_refl).
Defined.

(** C1, evaluated on a schedule the code admits.  Request "two" begins
    while request "one", past its check, is suspended in [postRender] and has
    not called [setDom].  The cleanup of "one" has set its
    [shouldReplaceContent] to false and "two" is the current execution, yet
    "one" still calls [setDom] when it resumes: both results get mounted and
    the hook ends up with the result of "one", the older request. *)
Theorem superseded_run_still_mounts :
  mounts (calls (exec (one_pre_rendered ++ [Advance 0 None]) mount)) = [] /\
  cleanup (exec superseded_during_postRender mount) = Some 1 /\
  shouldReplaceContent <$> runs (exec superseded_during_postRender mount) !! 0
    = Some false /\
  mounts (calls (exec superseded_during_postRender mount))
    = [SetDom 1 (page 33); SetDom 0 (page 13)] /\
  dom (exec superseded_during_postRender mount) = page 13.
Proof. vm_compute. repeat split. Qed.

(** The guard does its work up to the check: an execution whose cleanup
    runs before its [.then] callback has passed the check never scrolls and
    never calls [setDom], whenever its transformers return; all it ever
    does is apply transformers. *)
Theorem superseded_before_commit_never_mounts evs n r c ref page' contentPath evs' :
  cleanup (exec evs mount) = Some n ->
  runs (exec evs mount) !! n = Some r ->
  phase r = PreRendering c ->
  forall k,
    k ∈ calls (exec (Effect ref page' contentPath :: evs') (exec evs mount)) ->
    call_run k = n ->
    exists t i o, k = Transform n t i o.
Proof.
  intros Hcl Hr Hph k Hk Hn.
  pose proof (reachable_Shape evs n r Hr) as Hsh. rewrite Hph in Hsh.
  set (h := exec evs mount) in *. simpl in Hk.
  destruct (effect_lookup ref page' contentPath h n r Hr)
    as (r' & Hr' & _ & _ & _ & Hph' & Hflag).
  assert (Hs : superseded r').
  { split.
    - destruct Hflag as [Hflag|[_ Hflag]]; [|exact Hflag].
      unfold effect, run_cleanup in Hr'. rewrite Hcl in Hr'.
      assert (Hc : runs (update_run n cancel h) !! n = Some (cancel r))
        by (simpl; now rewrite list_lookup_alter_eq, Hr).
      destruct (present page'); simpl in Hr';
        try (rewrite lookup_app_l in Hr'
               by (rewrite length_alter; eapply lookup_lt_Some, Hr));
        simpl in Hc; rewrite Hc in Hr'; now injection Hr' as <-.
    - intros c'. rewrite Hph', Hph. discriminate. }
  destruct (superseded_exec evs' _ n r' Hr' Hs k Hk Hn) as [Hold|Hnew]; [|exact Hnew].
  rewrite effect_calls in Hold.
  assert (Hin : k ∈ calls_of n (calls h)) by now apply elem_of_calls_of.
  inversion Hsh as [c0 done outs Hdone Hlen Hcur Hc0 Htr| | |]. rewrite <- Htr in Hin.
  apply elem_of_applied in Hin as (t & i & o & -> & _). eauto.
Qed.

Lemma superseded_before_commit_never_mounts_witness :
  forall k,
    k ∈ calls (exec (Effect docs (Some "<h1>two</h1>") "two"
                       :: Advance 0 None :: resumes 0 (map page (seq 9 6)))
                 (exec one_pre_rendered mount)) ->
    call_run k = 0 ->
    exists t i o, k = Transform 0 t i o.
Proof.
  exact (superseded_before_commit_never_mounts one_pre_rendered 0
           (mkRun docs "<h1>one</h1>" "one" true
                  (PreRendering (mkChain (Dom (page 8)) [])))
           (mkChain (Dom (page 8)) []) docs (Some "<h1>two</h1>") "two"
           (Advance 0 None :: resumes 0 (map page (seq 9 6)))
           eq_refl eq_refl eq_refl).
Defined.

(** *** Further properties of the render effect *)

(** Resuming an execution changes neither the cleanup React holds, nor the
    number of executions, nor anyone's [shouldReplaceContent]. *)
Lemma advance_frame n out h :
  cleanup (advance n out h) = cleanup h /\
  length (runs (advance n out h)) = length (runs h) /\
  forall m, shouldReplaceContent <$> runs (advance n out h) !! m =
            shouldReplaceContent <$> runs h !! m.
Proof.
  assert (Halter : forall ph (l : list Run) (m : nat),
            shouldReplaceContent <$> alter (set_phase ph) n l !! m =
            shouldReplaceContent <$> l !! m).
  { intros ph l m. destruct (decide (n = m)) as [<-|Hne].
    - rewrite list_lookup_alter_eq. now destruct (l !! n).
    - now rewrite list_lookup_alter_ne. }
  unfold advance. destruct (runs h !! n) as [r|]; [|auto].
  destruct (phase r) as [c|c|]; [| |auto].
  - destruct (chain_next out c) as [[[t input] c']|]; simpl.
    + rewrite length_alter. auto.
    + unfold preRender_then.
      destruct (negb (truthy_opt _)); [|destruct (negb (shouldReplaceContent r))];
        simpl; rewrite length_alter; auto.
  - destruct (chain_next out c) as [[[t input] c']|]; simpl;
      rewrite length_alter; auto.
Qed.

(** The execution React holds the cleanup of is the one started last, and
    no other execution has [shouldReplaceContent] still true. *)
Definition latest_is_current (h : Hook) : Prop :=
  (forall n, cleanup h = Some n -> S n = length (runs h)) /\
  (forall n r, runs h !! n = Some r -> shouldReplaceContent r = true ->
     cleanup h = Some n).

Lemma latest_is_current_step h e : latest_is_current h -> latest_is_current (step h e).
Proof.
  intros [Hlast Hcur]. destruct e as [ref page' contentPath|n out]; simpl.
  - assert (Hcancelled : forall m r, runs (run_cleanup h) !! m = Some r ->
              shouldReplaceContent r = false).
    { intros m r Hr. unfold run_cleanup in Hr.
      destruct (cleanup h) as [k|] eqn:Hk; simpl in Hr.
      - destruct (decide (k = m)) as [<-|Hne].
        + rewrite list_lookup_alter_eq in Hr.
          destruct (runs h !! k); [|discriminate]. now injection Hr as <-.
        + rewrite list_lookup_alter_ne in Hr by exact Hne.
          destruct (shouldReplaceContent r) eqn:Hflag; [|reflexivity].
          specialize (Hcur m r Hr Hflag). congruence.
      - destruct (shouldReplaceContent r) eqn:Hflag; [|reflexivity].
        specialize (Hcur m r Hr Hflag). congruence. }
    unfold effect. destruct (present page') as [raw|]; split; simpl.
    + intros n [= <-]. rewrite length_app. simpl. lia.
    + intros n r [Hr|[Hlen Hr]]%lookup_app_Some Hflag.
      * rewrite (Hcancelled n r Hr) in Hflag. discriminate.
      * apply list_lookup_singleton_Some in Hr as [Hn _]. f_equal. lia.
    + discriminate.
    + intros n r Hr Hflag. rewrite (Hcancelled n r Hr) in Hflag. discriminate.
  - destruct (advance_frame n out h) as (Hcl & Hlen & Hflags). split.
    + intros m Hm. rewrite Hcl in Hm. rewrite Hlen. now apply Hlast.
    + intros m r Hr Hflag. rewrite Hcl.
      specialize (Hflags m). rewrite Hr in Hflags. simpl in Hflags.
      destruct (runs h !! m) as [r0|] eqn:Hr0; [|discriminate].
      apply (Hcur m r0 Hr0). simpl in Hflags. congruence.
Qed.

Lemma latest_is_current_exec evs h :
  latest_is_current h -> latest_is_current (exec evs h).
Proof.
  revert h. induction evs as [|e evs IH]; intros h H; simpl; [exact H|].
  apply IH, latest_is_current_step, H.
Qed.

(** At any time at most one execution of the effect is still current: an
    execution whose [shouldReplaceContent] is true is the one started last,
    it is the one whose cleanup React holds, and every other execution has
    been cancelled. *)
Theorem only_latest_execution_is_current evs n r :
  runs (exec evs mount) !! n = Some r ->
  shouldReplaceContent r = true ->
  S n = length (runs (exec evs mount)) /\
  cleanup (exec evs mount) = Some n /\
  forall m r', runs (exec evs mount) !! m = Some r' -> m <> n ->
    shouldReplaceContent r' = false.
Proof.
  intros Hr Hflag.
  assert (H : latest_is_current (exec evs mount)).
  { apply latest_is_current_exec. split; [discriminate|].
    intros m r0 Hr0. simpl in Hr0. rewrite lookup_nil in Hr0. discriminate. }
  destruct H as [Hlast Hcur]. pose proof (Hcur n r Hr Hflag) as Hcl.
  split; [auto|]. split; [exact Hcl|].
  intros m r' Hr' Hne. destruct (shouldReplaceContent r') eqn:Hflag'; [|reflexivity].
  pose proof (Hcur m r' Hr' Hflag') as Hcl'. congruence.
Qed.

(** After [superseded_during_postRender] the hook has two executions: the
    one for "two" is current, the one for "one" is cancelled. *)
Lemma only_latest_execution_is_current_witness :
  S 1 = length (runs (exec superseded_during_postRender mount)) /\
  cleanup (exec superseded_during_postRender mount) = Some 1 /\
  forall m r', runs (exec superseded_during_postRender mount) !! m = Some r' -> m <> 1 ->
    shouldReplaceContent r' = false.
Proof.
  exact (only_latest_execution_is_current superseded_during_postRender 1
           (mkRun docs "<h1>two</h1>" "two" true Settled)
           eq_refl eq_refl).
Defined.

(** The argument of the last [setDom] call of a log, null when there is
    none. *)
Definition last_mounted (cs : list Call) : option Element :=
  fold_left (fun el c => match c with SetDom _ el' => el' | _ => el end) cs None.

Lemma last_mounted_snoc cs c :
  last_mounted (cs ++ [c]) =
    match c with SetDom _ el => el | _ => last_mounted cs end.
Proof. unfold last_mounted. now rewrite fold_left_app. Qed.

Lemma dom_last_mounted_step h e :
  dom h = last_mounted (calls h) ->
  dom (step h e) = last_mounted (calls (step h e)).
Proof.
  intros H. destruct e as [ref page' contentPath|n out]; simpl.
  - rewrite effect_calls. unfold effect, run_cleanup.
    destruct (cleanup h); destruct (present page'); exact H.
  - unfold advance. destruct (runs h !! n) as [r|]; [|exact H].
    destruct (phase r) as [c|c|]; [| |exact H].
    + destruct (chain_next out c) as [[[t input] c']|]; simpl.
      * now rewrite last_mounted_snoc.
      * unfold preRender_then.
        destruct (negb (truthy_opt _)); [|destruct (negb (shouldReplaceContent r))];
          simpl; rewrite ?last_mounted_snoc; exact H.
    + destruct (chain_next out c) as [[[t input] c']|]; simpl;
        now rewrite last_mounted_snoc.
Qed.

Lemma dom_last_mounted evs : dom (exec evs mount) = last_mounted (calls (exec evs mount)).
Proof.
  assert (H : forall h, dom h = last_mounted (calls h) ->
            dom (exec evs h) = last_mounted (calls (exec evs h))).
  { induction evs as [|e evs IH]; intros h Hh; simpl; [exact Hh|].
    apply IH, dom_last_mounted_step, Hh. }
  now apply H.
Qed.

Lemma last_mounted_Some cs e :
  last_mounted cs = Some e -> exists n, SetDom n (Some e) ∈ cs.
Proof.
  induction cs as [|c cs IH] using rev_ind; [discriminate|].
  rewrite last_mounted_snoc. intros H. destruct c as [m t i o|m top|m el].
  - destruct (IH H) as [n Hn]. exists n. apply elem_of_app. now left.
  - destruct (IH H) as [n Hn]. exists n. apply elem_of_app. now left.
  - subst el. exists m. apply elem_of_app. right. now left.
Qed.

(** A [setDom] call in the calls of an execution pins down everything the
    execution did. *)
Lemma Shape_setDom n ref raw contentPath ph tr el :
  Shape n ref raw contentPath ph tr ->
  SetDom n el ∈ tr ->
  exists pre_outs post_outs,
    length pre_outs = 8 /\ length post_outs = 5 /\
    truthy_opt (content_innerHTML (final (Raw raw) pre_outs)) = true /\
    tr = applied n (Raw raw) (preRender_transformers ref contentPath) pre_outs
         ++ WindowScroll n 0
         :: applied n (final (Raw raw) pre_outs) postRender_transformers post_outs
         ++ [SetDom n el] /\
    el = as_element (final (final (Raw raw) pre_outs) post_outs).
Proof.
  assert (Hno : forall i ts outs, SetDom n el ∉ applied n i ts outs).
  { intros i ts outs Hin. apply elem_of_applied in Hin as (t & i' & o & Heq & _).
    discriminate. }
  intros [c done outs Hdone Hlen Hcur
         |c pre_outs done outs Hpre Htruthy Hdone Hlen Hcur
         |pre_outs Hpre
         |pre_outs outs Hpre Htruthy Hlen] Hin.
  - now apply Hno in Hin.
  - apply elem_of_app in Hin as [Hin|Hin]; [now apply Hno in Hin|].
    apply elem_of_cons in Hin as [Hin|Hin]; [discriminate|now apply Hno in Hin].
  - now apply Hno in Hin.
  - apply elem_of_app in Hin as [Hin|Hin]; [now apply Hno in Hin|].
    apply elem_of_cons in Hin as [Hin|Hin]; [discriminate|].
    apply elem_of_app in Hin as [Hin|Hin]; [now apply Hno in Hin|].
    apply list_elem_of_singleton in Hin. injection Hin as ->.
    exists pre_outs, outs. auto.
Qed.

(** Whatever element the hook returns has been through the whole pipeline:
    it is what the last post-render transformer returned in an execution
    that applied the eight pre-render transformers to its raw page, found
    their output non-empty, scrolled, applied the five post-render
    transformers and then called [setDom], in this order and nothing else. *)
Theorem returned_dom_went_through_the_pipeline evs e :
  dom (exec evs mount) = Some e ->
  exists n r pre_outs post_outs,
    runs (exec evs mount) !! n = Some r /\
    length pre_outs = 8 /\ length post_outs = 5 /\
    truthy_opt (content_innerHTML (final (Raw (rawPage r)) pre_outs)) = true /\
    calls_of n (calls (exec evs mount)) =
      applied n (Raw (rawPage r))
        (preRender_transformers (entityRef r) (path r)) pre_outs
      ++ WindowScroll n 0
      :: applied n (final (Raw (rawPage r)) pre_outs) postRender_transformers post_outs
      ++ [SetDom n (Some e)] /\
    as_element (final (final (Raw (rawPage r)) pre_outs) post_outs) = Some e.
Proof.
  intros Hdom. rewrite dom_last_mounted in Hdom.
  apply last_mounted_Some in Hdom as [n Hin].
  destruct (reachable_Inv evs) as [Hbound Hshape].
  pose proof (Hbound _ Hin) as Hlt. simpl in Hlt.
  apply lookup_lt_is_Some in Hlt as [r Hr].
  assert (Hin' : SetDom n (Some e) ∈ calls_of n (calls (exec evs mount)))
    by now apply elem_of_calls_of.
  destruct (Shape_setDom _ _ _ _ _ _ _ (Hshape n r Hr) Hin')
    as (pre_outs & post_outs & Hpre & Hpost & Htruthy & Htr & Hel).
  exists n, r, pre_outs, post_outs. auto 10.
Qed.

Lemma returned_dom_went_through_the_pipeline_witness :
  exists n r pre_outs post_outs,
    runs (exec superseded_during_postRender mount) !! n = Some r /\
    length pre_outs = 8 /\ length post_outs = 5 /\
    truthy_opt (content_innerHTML (final (Raw (rawPage r)) pre_outs)) = true /\
    calls_of n (calls (exec superseded_during_postRender mount)) =
      applied n (Raw (rawPage r))
        (preRender_transformers (entityRef r) (path r)) pre_outs
      ++ WindowScroll n 0
      :: applied n (final (Raw (rawPage r)) pre_outs) postRender_transformers post_outs
      ++ [SetDom n (page 13)] /\
    as_element (final (final (Raw (rawPage r)) pre_outs) post_outs) = page 13.
Proof.
  exact (returned_dom_went_through_the_pipeline superseded_during_postRender
           (mkElement 13 "<p>page</p>" "page") eq_refl).
Defined.

Lemma mounts_applied n input ts outs : mounts (applied n input ts outs) = [].
Proof.
  revert input outs. induction ts as [|t ts IH]; intros input [|o outs];
    simpl; auto.
Qed.

Lemma mounts_app cs1 cs2 : mounts (cs1 ++ cs2) = mounts cs1 ++ mounts cs2.
Proof. apply List.filter_app. Qed.

(** No execution of the effect calls [setDom] twice. *)
Theorem execution_mounts_at_most_once evs n :
  length (mounts (calls_of n (calls (exec evs mount)))) <= 1.
Proof.
  destruct (reachable_Inv evs) as [Hbound Hshape].
  destruct (runs (exec evs mount) !! n) as [r|] eqn:Hr.
  - assert (Hscroll : forall top cs, mounts (WindowScroll n top :: cs) = mounts cs)
      by reflexivity.
    destruct (Hshape n r Hr);
      rewrite ?mounts_app, ?Hscroll, ?mounts_app, ?mounts_applied; simpl; lia.
  - rewrite calls_of_empty; [simpl; lia|].
    intros c Hc Hn. apply Hbound in Hc. apply lookup_ge_None in Hr. lia.
Qed.

(** Cancellation is permanent, and an execution keeps the request it was
    started for: whatever happens next, an execution whose
    [shouldReplaceContent] is false is still there with the same entity,
    raw page and path, and with [shouldReplaceContent] false. *)
Theorem cancellation_is_permanent evs h n r :
  runs h !! n = Some r ->
  shouldReplaceContent r = false ->
  exists r', runs (exec evs h) !! n = Some r' /\
    shouldReplaceContent r' = false /\
    entityRef r' = entityRef r /\ rawPage r' = rawPage r /\ path r' = path r.
Proof.
  revert h r. induction evs as [|e evs IH]; intros h r Hr Hflag; simpl.
  - exists r. auto.
  - assert (Hstep : exists r1, runs (step h e) !! n = Some r1 /\
              shouldReplaceContent r1 = false /\
              entityRef r1 = entityRef r /\ rawPage r1 = rawPage r /\ path r1 = path r).
    { destruct e as [ref page' contentPath|m out]; simpl.
      - destruct (effect_lookup ref page' contentPath h n r Hr)
          as (r1 & Hr1 & Href & Hraw & Hpath & _ & Hf).
        exists r1. repeat split; auto. destruct Hf as [->|[_ ->]]; auto.
      - destruct (decide (m = n)) as [->|Hne].
        + unfold advance. rewrite Hr.
          assert (Hset : forall ph (h0 : Hook), runs h0 = runs h ->
                    exists r1, alter (set_phase ph) n (runs h0) !! n = Some r1 /\
                      shouldReplaceContent r1 = false /\
                      entityRef r1 = entityRef r /\ rawPage r1 = rawPage r /\
                      path r1 = path r).
          { intros ph h0 ->. rewrite list_lookup_alter_eq, Hr. simpl.
            eexists. split; [reflexivity|]. auto. }
          destruct (phase r) as [c|c|]; [| |exists r; auto].
          * destruct (chain_next out c) as [[[t input] c']|]; simpl.
            -- now apply (Hset _ h).
            -- unfold preRender_then. rewrite Hflag.
               destruct (negb (truthy_opt _)); simpl; now apply (Hset _ h).
          * destruct (chain_next out c) as [[[t input] c']|]; simpl;
              now apply (Hset _ h).
        + destruct (advance_other m n out h Hne) as [-> _]. exists r. auto. }
    destruct Hstep as (r1 & Hr1 & Hf1 & Href & Hraw & Hpath).
    destruct (IH _ r1 Hr1 Hf1) as (r' & Hr' & Hf' & Href' & Hraw' & Hpath').
    exists r'. repeat split; congruence.
Qed.

Lemma cancellation_is_permanent_witness :
  exists r',
    runs (exec (resumes 0 (map page (seq 9 5)) ++ [Advance 0 None])
            (exec (one_pre_rendered
                   ++ [Advance 0 None; Effect docs (Some "<h1>two</h1>") "two"]) mount))
      !! 0 = Some r' /\
    shouldReplaceContent r' = false /\
    entityRef r' = docs /\ rawPage r' = "<h1>one</h1>" /\ path r' = "one".
Proof.
  exact (cancellation_is_permanent
           (resumes 0 (map page (seq 9 5)) ++ [Advance 0 None])
           (exec (one_pre_rendered
                  ++ [Advance 0 None; Effect docs (Some "<h1>two</h1>") "two"]) mount)
           0
           (mkRun docs "<h1>one</h1>" "one" false
                  (PostRendering (postRender (Dom (page 8)))))
           eq_refl eq_refl).
Defined.

(** Cancellation aborts nothing: a cancelled execution that is still
    pre-rendering applies every transformer it has left, each on the output
    of the one before, and only then drops the result; [dom] is untouched
    and nothing else is called. *)
Theorem cancelled_execution_finishes_preRender h n r c outs out :
  runs h !! n = Some r ->
  phase r = PreRendering c ->
  shouldReplaceContent r = false ->
  length outs = length (pending c) ->
  calls (exec (resumes n outs ++ [Advance n out]) h) =
    calls h ++ applied n (current c) (pending c) outs /\
  dom (exec (resumes n outs ++ [Advance n out]) h) = dom h /\
  exists r', runs (exec (resumes n outs ++ [Advance n out]) h) !! n = Some r' /\
    phase r' = Settled.
Proof.
  intros Hr Hph Hflag Hlen. rewrite exec_app.
  destruct (resumes_in_stage PreRendering outs (or_introl eq_refl) h n r c Hr Hph)
    as (Hr1 & Hcalls & Hdom & _); [lia|].
  rewrite Hlen, drop_all in Hr1.
  set (h1 := exec (resumes n outs) h) in *.
  assert (Hstep : exec [Advance n out] h1 = update_run n (set_phase Settled) h1).
  { simpl. unfold advance, chain_next, preRender_then. rewrite Hr1. simpl.
    rewrite Hflag. now destruct (negb (truthy_opt _)). }
  rewrite Hstep. simpl. repeat split; [exact Hcalls|exact Hdom|].
  rewrite list_lookup_alter_eq, Hr1. simpl. eexists. split; reflexivity.
Qed.

Lemma cancelled_execution_finishes_preRender_witness :
  calls (exec (resumes 0 (map page (seq 1 8)) ++ [Advance 0 None])
           (exec [Effect docs (Some "<h1>one</h1>") "one"; Effect docs None "one"] mount)) =
    calls (exec [Effect docs (Some "<h1>one</h1>") "one"; Effect docs None "one"] mount)
    ++ applied 0 (Raw "<h1>one</h1>") (preRender_transformers docs "one")
         (map page (seq 1 8)) /\
  dom (exec (resumes 0 (map page (seq 1 8)) ++ [Advance 0 None])
         (exec [Effect docs (Some "<h1>one</h1>") "one"; Effect docs None "one"] mount)) =
    dom (exec [Effect docs (Some "<h1>one</h1>") "one"; Effect docs None "one"] mount) /\
  exists r',
    runs (exec (resumes 0 (map page (seq 1 8)) ++ [Advance 0 None])
            (exec [Effect docs (Some "<h1>one</h1>") "one"; Effect docs None "one"] mount))
      !! 0 = Some r' /\
    phase r' = Settled.
Proof.
  exact (cancelled_execution_finishes_preRender
           (exec [Effect docs (Some "<h1>one</h1>") "one"; Effect docs None "one"] mount)
           0
           (mkRun docs "<h1>one</h1>" "one" false
                  (PreRendering (preRender docs "<h1>one</h1>" "one")))
           (preRender docs "<h1>one</h1>" "one")
           (map page (seq 1 8)) None eq_refl eq_refl eq_refl eq_refl).
Defined.

Lemma uninterrupted_request_mounts_witness :
  dom (exec (Effect docs (Some "<h1>one</h1>") "one"
               :: resumes 0 (map page (seq 1 8)) ++ Advance 0 None
               :: resumes 0 (map page (seq 9 5)) ++ [Advance 0 None]) mount) =
    page 13 /\
  calls (exec (Effect docs (Some "<h1>one</h1>") "one"
                 :: resumes 0 (map page (seq 1 8)) ++ Advance 0 None
                 :: resumes 0 (map page (seq 9 5)) ++ [Advance 0 None]) mount) =
    applied 0 (Raw "<h1>one</h1>") (preRender_transformers docs "one")
      (map page (seq 1 8))
    ++ WindowScroll 0 0
    :: applied 0 (Dom (page 8)) postRender_transformers (map page (seq 9 5))
    ++ [SetDom 0 (page 13)].
Proof.
  exact (uninterrupted_request_mounts mount docs "<h1>one</h1>" "one"
           (map page (seq 1 8)) (map page (seq 9 5))
           eq_refl eq_refl eq_refl eq_refl).
Defined.

(** An effect that runs with [rawPage] undefined or empty starts nothing:
    no execution is added, nothing is called and [dom] keeps the element
    mounted before.  The execution that was current is cancelled all the
    same, and the cleanup React now holds is the empty one, so that the
    next run of the effect cancels no one. *)
Theorem empty_rawPage_starts_nothing ref page' contentPath h :
  truthy_opt page' = false ->
  dom (effect ref page' contentPath h) = dom h /\
  calls (effect ref page' contentPath h) = calls h /\
  length (runs (effect ref page' contentPath h)) = length (runs h) /\
  cleanup (effect ref page' contentPath h) = None /\
  (forall n r, cleanup h = Some n -> runs h !! n = Some r ->
     runs (effect ref page' contentPath h) !! n = Some (cancel r)) /\
  run_cleanup (effect ref page' contentPath h) = effect ref page' contentPath h.
Proof.
  intros Hempty.
  assert (Hp : present page' = None).
  { destruct page' as [raw|]; [|reflexivity]. simpl in *. now rewrite Hempty. }
  unfold effect. rewrite Hp. unfold run_cleanup at 6. simpl.
  unfold run_cleanup.
  destruct (cleanup h) as [k|] eqn:Hk; simpl; repeat split;
    try (now rewrite length_alter); try discriminate.
  intros n r [= ->] Hr. now rewrite list_lookup_alter_eq, Hr.
Qed.

Lemma empty_rawPage_starts_nothing_witness :
  dom (effect docs (Some EmptyString) "one" (exec one_pre_rendered mount)) =
    dom (exec one_pre_rendered mount) /\
  calls (effect docs (Some EmptyString) "one" (exec one_pre_rendered mount)) =
    calls (exec one_pre_rendered mount) /\
  length (runs (effect docs (Some EmptyString) "one" (exec one_pre_rendered mount))) =
    length (runs (exec one_pre_rendered mount)) /\
  cleanup (effect docs (Some EmptyString) "one" (exec one_pre_rendered mount)) = None /\
  (forall n r, cleanup (exec one_pre_rendered mount) = Some n ->
     runs (exec one_pre_rendered mount) !! n = Some r ->
     runs (effect docs (Some EmptyString) "one" (exec one_pre_rendered mount)) !! n =
       Some (cancel r)) /\
  run_cleanup (effect docs (Some EmptyString) "one" (exec one_pre_rendered mount)) =
    effect docs (Some EmptyString) "one" (exec one_pre_rendered mount).
Proof.
  exact (empty_rawPage_starts_nothing docs (Some EmptyString) "one"
           (exec one_pre_rendered mount) eq_refl).
Defined.

(** Last request wins up to the check: when a new run of the effect begins
    (on any [rawPage]) while the current execution is still pre-rendering,
    that execution never calls [window.scroll] or [setDom] afterwards;
    every call it ever makes applies a transformer. *)
Theorem cancelled_before_its_check_never_commits
    evs n r c ref page' contentPath evs' :
  cleanup (exec evs mount) = Some n ->
  runs (exec evs mount) !! n = Some r ->
  phase r = PreRendering c ->
  Forall (fun k => exists t i o, k = Transform n t i o)
    (calls_of n
       (calls (exec (Effect ref page' contentPath :: evs') (exec evs mount)))).
Proof.
  intros Hcl Hr Hph. apply Forall_forall. intros k [Hn Hk]%elem_of_calls_of.
  exact (superseded_before_commit_never_mounts evs n r c ref page' contentPath evs'
           Hcl Hr Hph k Hk Hn).
Qed.

Lemma cancelled_before_its_check_never_commits_witness :
  Forall (fun k => exists t i o, k = Transform 0 t i o)
    (calls_of 0
       (calls (exec (Effect docs (Some "<h1>two</h1>") "two"
                       :: Advance 0 None :: resumes 0 (map page (seq 9 6)))
                 (exec one_pre_rendered mount)))).
Proof.
  exact (cancelled_before_its_check_never_commits one_pre_rendered 0
           (mkRun docs "<h1>one</h1>" "one" true
                  (PreRendering (mkChain (Dom (page 8)) [])))
           (mkChain (Dom (page 8)) []) docs (Some "<h1>two</h1>") "two"
           (Advance 0 None :: resumes 0 (map page (seq 9 6)))
           eq_refl eq_refl eq_refl).
Defined.

End Pipeline.

(** ** The footer width: [updateFooterWidth] and the two effects that call it *)
Module Footer.

Section WithNumber.

(** JavaScript numbers and their conversion to a string in a template
    literal are the host's. *)
Context {number : Type}.
Variable Number_toString : number -> string.

(** The part of the page the hook reads and writes: the first match of a
    selector below an element, the width of an element's bounding box, and
    the [style.width] of an element. *)
Record Page := mkPage {
  querySelector : Element -> string -> option Element;
  getBoundingClientRect_width : Element -> number;
  style_width : Element -> string
}.

(** [el.style.width = w]. *)
Definition set_style_width (el : Element) (w : string) (pg : Page) : Page :=
  mkPage (querySelector pg) (getBoundingClientRect_width pg)
         (fun e => if decide (e = el) then w else style_width pg e).

(** [updateFooterWidth], closed over [dom]. *)
Definition updateFooterWidth (dom : option Element) (pg : Page) : Page :=
  match dom with
  | None => pg
  | Some d =>
      match querySelector pg d ".md-footer" with
      | Some footer =>
          set_style_width footer
            (Number_toString (getBoundingClientRect_width pg d) +:+ "px") pg
      | None => pg
      end
  end.

(** The values one render of the hook works with. *)
Record Render := mkRender {
  dom : option Element;
  isStyleLoading : bool;
  state : string
}.

(** The window's resize listeners (each an [updateFooterWidth] closure,
    known by the [dom] it closes over), the page, and the render React
    committed last. *)
Record World := mkWorld {
  page : Page;
  resize_listeners : list (option Element);
  rendered : option Render
}.

Definition addEventListener (l : option Element) (w : World) : World :=
  if decide (l ∈ resize_listeners w) then w
  else mkWorld (page w) (resize_listeners w ++ [l]) (rendered w).

Definition removeEventListener (l : option Element) (w : World) : World :=
  mkWorld (page w) (List.remove (option_eq_dec) l (resize_listeners w)) (rendered w).

(** Dependencies [dom, updateFooterWidth] of the resize effect;
    [updateFooterWidth] is memoised on [dom]. *)
Definition resize_deps_changed (prev : option Render) (next : Render) : bool :=
  match prev with
  | None => true
  | Some p => negb (bool_decide (dom p = dom next))
  end.

(** Dependencies [state, isStyleLoading, updateFooterWidth] of the second
    effect. *)
Definition state_deps_changed (prev : option Render) (next : Render) : bool :=
  match prev with
  | None => true
  | Some p =>
      negb (bool_decide (state p = state next) &&
            bool_decide (isStyleLoading p = isStyleLoading next) &&
            bool_decide (dom p = dom next))
  end.

(** Cleanup of the resize effect of the previous render. *)
Definition resize_cleanup (prev : option Render) (w : World) : World :=
  match prev with
  | Some p => removeEventListener (dom p) w
  | None => w
  end.

(** The resize effect. *)
Definition resize_effect (next : Render) (w : World) : World :=
  addEventListener (dom next) w.

(** The effect triggered by [state]. *)
Definition state_effect (next : Render) (w : World) : World :=
  if negb (isStyleLoading next) then
    mkWorld (updateFooterWidth (dom next) (page w)) (resize_listeners w) (rendered w)
  else w.

(** React commits the render [next]: the cleanups of the effects whose
    dependencies changed, then their bodies, in order of declaration. *)
Definition commit (next : Render) (w : World) : World :=
  let prev := rendered w in
  let w := if resize_deps_changed prev next then resize_cleanup prev w else w in
  let w := if resize_deps_changed prev next then resize_effect next w else w in
  let w := if state_deps_changed prev next then state_effect next w else w in
  mkWorld (page w) (resize_listeners w) (Some next).

(** The window fires 'resize': every listener runs. *)
Definition dispatch_resize (w : World) : World :=
  mkWorld (fold_left (fun pg l => updateFooterWidth l pg) (resize_listeners w) (page w))
          (resize_listeners w) (rendered w).

(** What happens to a mounted hook: a render is committed, the window is
    resized, or the browser changes the page (layout, new content). *)
Inductive Event :=
| Commit (next : Render)
| Resize
| Layout (pg : Page).

Definition step (w : World) (e : Event) : World :=
  match e with
  | Commit next => commit next w
  | Resize => dispatch_resize w
  | Layout pg => mkWorld pg (resize_listeners w) (rendered w)
  end.

Definition exec (evs : list Event) (w : World) : World := fold_left step evs w.

(** Before the first commit. *)
Definition initial (pg : Page) : World := mkWorld pg [] None.

(** *** The listener follows the committed [dom] *)

Definition listening (w : World) : Prop :=
  resize_listeners w =
    match rendered w with
    | Some r => [dom r]
    | None => []
    end.

Lemma state_effect_listeners next w :
  resize_listeners (state_effect next w) = resize_listeners w.
Proof. unfold state_effect. now destruct (negb _). Qed.

Lemma commit_listeners next w :
  resize_listeners (commit next w) =
    if resize_deps_changed (rendered w) next
    then resize_listeners (resize_effect next (resize_cleanup (rendered w) w))
    else resize_listeners w.
Proof.
  unfold commit. simpl.
  destruct (resize_deps_changed _ _), (state_deps_changed _ _);
    now rewrite ?state_effect_listeners.
Qed.

Lemma listening_commit next w : listening w -> listening (commit next w).
Proof.
  unfold listening. intros Hl. rewrite commit_listeners.
  change (rendered (commit next w)) with (Some next).
  unfold resize_deps_changed, resize_cleanup, resize_effect, addEventListener.
  destruct (rendered w) as [p|]; simpl.
  - destruct (bool_decide (dom p = dom next)) eqn:Hd; simpl.
    + apply bool_decide_eq_true in Hd. now rewrite Hl, Hd.
    + rewrite Hl. simpl. destruct (option_eq_dec (dom p) (dom p)); [|congruence].
      simpl. destruct (decide (dom next ∈ [])) as [Hin|_]; [inversion Hin|reflexivity].
  - rewrite Hl. destruct (decide (dom next ∈ [])) as [Hin|_]; [inversion Hin|reflexivity].
Qed.

Lemma listening_step w e : listening w -> listening (step w e).
Proof.
  destruct e as [next| |pg]; simpl; [apply listening_commit|auto|auto].
Qed.

Lemma listening_exec evs w : listening w -> listening (exec evs w).
Proof.
  revert w. induction evs as [|e evs IH]; intros w Hl; simpl; [exact Hl|].
  apply IH, listening_step, Hl.
Qed.

Lemma style_width_set el w pg : style_width (set_style_width el w pg) el = w.
Proof. simpl. now rewrite decide_True. Qed.

(** *** The claim about resizing *)

(** C3, as the code has it.  Whenever the window is resized while the hook
    holds a mounted subtree [d] that contains a footer, the footer's
    [style.width] becomes the width of the bounding box of [d] at that
    moment, followed by "px"; the listener does not consult
    [isStyleLoading], so this holds while styles load as well.  The check
    of [isStyleLoading] guards the other caller of [updateFooterWidth]: a
    render committed while styles load leaves the page as it is. *)
Theorem resize_sets_footer_width evs pg0 r d footer :
  rendered (exec evs (initial pg0)) = Some r ->
  dom r = Some d ->
  querySelector (page (exec evs (initial pg0))) d ".md-footer" = Some footer ->
  style_width (page (dispatch_resize (exec evs (initial pg0)))) footer =
    Number_toString (getBoundingClientRect_width (page (exec evs (initial pg0))) d)
    +:+ "px" /\
  forall next, isStyleLoading next = true ->
    page (commit next (exec evs (initial pg0))) = page (exec evs (initial pg0)).
Proof.
  intros Hr Hd Hq. split.
  - assert (Hl : listening (exec evs (initial pg0)))
      by (apply listening_exec; reflexivity).
    unfold listening in Hl. rewrite Hr, Hd in Hl.
    unfold dispatch_resize. rewrite Hl. simpl. rewrite Hq.
    apply style_width_set.
  - intros next Hloading. unfold commit, state_effect. rewrite Hloading. simpl.
    destruct (resize_deps_changed _ _), (state_deps_changed _ _); simpl;
      unfold resize_effect, resize_cleanup, addEventListener;
      repeat (match goal with |- context [match ?x with _ => _ end] => destruct x end;
              simpl); reflexivity.
Qed.

End WithNumber.

(** *** A page with a footer, measured in whole pixels *)

Definition pixels (n : nat) : string := NilZero.string_of_uint (Nat.to_uint n).

Definition container : Element := mkElement 1 "<article>docs</article><footer>next</footer>" "docs next".
Definition footer : Element := mkElement 2 "next" "next".

Definition docs_page : Page :=
  mkPage (fun root selectors =>
            if decide (root = container /\ selectors = ".md-footer")
            then Some footer else None)
         (fun _ => 800)
         (fun _ => EmptyString).

(** The hook has mounted [container] and its styles are still loading. *)
Definition styles_loading : list (@Event nat) :=
  [Commit (mkRender (Some container) true "CONTENT_FRESH")].

Lemma resize_sets_footer_width_witness :
  style_width (page (dispatch_resize pixels (exec pixels styles_loading (initial docs_page)))) footer =
    pixels (getBoundingClientRect_width (page (exec pixels styles_loading (initial docs_page))) container)
    +:+ "px" /\
  forall next, isStyleLoading next = true ->
    page (commit pixels next (exec pixels styles_loading (initial docs_page))) =
    page (exec pixels styles_loading (initial docs_page)).
Proof.
  exact (resize_sets_footer_width pixels styles_loading docs_page
           (mkRender (Some container) true "CONTENT_FRESH") container footer
           eq_refl eq_refl eq_refl).
Defined.

(** C3 as stated fails on its second half: a resize while style loading is
    in progress does recompute the footer width. *)
Lemma resize_recomputes_while_styles_load :
  isStyleLoading <$> rendered (exec pixels styles_loading (initial docs_page)) = Some true /\
  style_width (page (exec pixels styles_loading (initial docs_page))) footer = EmptyString /\
  style_width (page (dispatch_resize pixels (exec pixels styles_loading (initial docs_page)))) footer
    = "800px".
Proof. vm_compute. repeat split. Qed.

(** *** Further properties of the footer effects *)

Section Effects.

Context {number : Type}.
Variable Number_toString : number -> string.

(** The cleanup of the resize effect does its work: once the hook has
    rendered, the window holds exactly one resize listener, the
    [updateFooterWidth] of the render committed last; before that it holds
    none. *)
Theorem one_resize_listener_for_the_current_dom evs (pg0 : @Page number) :
  resize_listeners (exec Number_toString evs (initial pg0)) =
    match rendered (exec Number_toString evs (initial pg0)) with
    | Some r => [dom r]
    | None => []
    end.
Proof. apply (listening_exec Number_toString). reflexivity. Qed.


(** When style loading finishes, the footer gets its width: committing a
    render with [isStyleLoading] false after one with [isStyleLoading] true
    sets the [style.width] of the footer of the new [dom] to the width of
    the bounding box of that [dom], in pixels. *)
Theorem footer_width_set_when_styles_finish_loading
    (w : @World number) prev next d footer :
  rendered w = Some prev ->
  isStyleLoading prev = true ->
  isStyleLoading next = false ->
  dom next = Some d ->
  querySelector (page w) d ".md-footer" = Some footer ->
  style_width (page (commit Number_toString next w)) footer =
    Number_toString (getBoundingClientRect_width (page w) d) +:+ "px".
Proof.
  intros Hprev Hloading Hloaded Hd Hq.
  unfold commit. simpl.
  assert (Hchanged : state_deps_changed (rendered w) next = true).
  { rewrite Hprev. unfold state_deps_changed. rewrite Hloading, Hloaded.
    now destruct (bool_decide (state prev = state next)). }
  rewrite Hchanged. unfold state_effect. rewrite Hloaded. simpl.
  unfold updateFooterWidth. rewrite Hd.
  set (w1 := if resize_deps_changed (rendered w) next then _ else _).
  assert (Hw1 : page w1 = page w).
  { subst w1. rewrite Hprev. unfold resize_effect, resize_cleanup, addEventListener.
    simpl. destruct (negb _); [|reflexivity].
    now destruct (decide _). }
  rewrite Hw1, Hq. apply style_width_set.
Qed.

(** A render that changes none of [state], [isStyleLoading] and [dom] runs
    neither effect: the listener stays and the footer keeps the width it
    has, whatever the layout has become in the meantime. *)
Theorem rerender_without_changes_runs_no_effect (w : @World number) r :
  rendered w = Some r ->
  commit Number_toString r w = w.
Proof.
  intros Hr. unfold commit, resize_deps_changed, state_deps_changed.
  rewrite Hr. rewrite !bool_decide_eq_true_2 by reflexivity. simpl.
  destruct w. simpl in *. now subst.
Qed.

End Effects.

(** The styles of [container] have loaded. *)
Definition styles_loaded : @Render := mkRender (Some container) false "CONTENT_FRESH".

Lemma footer_width_set_when_styles_finish_loading_witness :
  style_width (page (commit pixels styles_loaded
                       (exec pixels styles_loading (initial docs_page)))) footer =
    pixels 800 +:+ "px".
Proof.
  exact (footer_width_set_when_styles_finish_loading pixels
           (exec pixels styles_loading (initial docs_page))
           (mkRender (Some container) true "CONTENT_FRESH") styles_loaded
           container footer eq_refl eq_refl eq_refl eq_refl eq_refl).
Defined.

Lemma rerender_without_changes_runs_no_effect_witness :
  commit pixels styles_loaded
    (exec pixels (styles_loading ++ [Commit styles_loaded; Layout docs_page])
       (initial docs_page)) =
  exec pixels (styles_loading ++ [Commit styles_loaded; Layout docs_page])
    (initial docs_page).
Proof.
  exact (rerender_without_changes_runs_no_effect pixels
           (exec pixels (styles_loading ++ [Commit styles_loaded; Layout docs_page])
              (initial docs_page))
           styles_loaded eq_refl).
Defined.

End Footer.

(** ** The click handler given to [addLinkClickListener] *)
Module Click.

(** *** JavaScript string operations the handler uses *)

(** [s.slice(n)] for a non-negative [n]. *)
Fixpoint slice (n : nat) (s : string) : string :=
  match n, s with
  | O, _ => s
  | S _, EmptyString => EmptyString
  | S n', String _ rest => slice n' rest
  end.

(** [s.replace(pattern, '')] for a string pattern: the first occurrence of
    the pattern is removed, and [s] is returned as it is when there is
    none. *)
Fixpoint replace_first (pattern s : string) : string :=
  if String.prefix pattern s then slice (String.length pattern) s
  else
    match s with
    | EmptyString => EmptyString
    | String c rest => String c (replace_first pattern rest)
    end.

(** [a || b] on strings, [a] possibly undefined. *)
Definition or_else (a : option string) (b : string) : string :=
  if truthy_opt a then default b a else b.

(** The double quote, as a string. *)
Definition dquote : string := String (ascii_of_nat 34) EmptyString.

(** *** The host *)

(** The fields of a [MouseEvent] the handler reads. *)
Record MouseEvent := mkMouseEvent {
  ctrlKey : bool;
  metaKey : bool;
  target : option Element
}.

(** The one field of a parsed [URL] the handler reads. *)
Record URL := mkURL { hash : string }.

(** What the handler takes from the browser: [window.location.origin], the
    [URL] constructor ([None] when it throws a TypeError) and
    [querySelector]. *)
Record Browser := mkBrowser {
  location_origin : string;
  new_URL : string -> option URL;
  querySelector : Element -> string -> option Element
}.

(** Calls on the collaborators. *)
Inductive Call :=
| CaptureEvent (action subject : string) (to : string)
| WindowOpen (url windowTarget : string)
| Navigate (url : string)
| QuerySelector (root : Element) (selectors : string)
| ScrollIntoView (el : Element).

(** Computations that log their calls and may throw: the log so far goes
    in, the log comes out with the result, [None] when an exception
    propagates. *)
Definition M (A : Type) : Type := list Call -> option A * list Call.

Definition ret {A} (a : A) : M A := fun cs => (Some a, cs).

Definition bind {A B} (m : M A) (k : A -> M B) : M B :=
  fun cs =>
    match m cs with
    | (Some a, cs') => k a cs'
    | (None, cs') => (None, cs')
    end.

Definition throw {A} : M A := fun cs => (None, cs).

Definition call (c : Call) : M unit := fun cs => (Some tt, cs ++ [c]).

Notation "x <- m ;; k" := (bind m (fun x => k))
  (at level 100, m at next level, right associativity).
Notation "m ;;; k" := (bind m (fun _ => k))
  (at level 100, right associativity).

(** Running a handler from an empty log. *)
Definition run {A} (m : M A) : option A * list Call := m [].

Definition construct_URL (b : Browser) (url : string) : M URL :=
  match new_URL b url with
  | Some u => ret u
  | None => throw
  end.

Definition query (b : Browser) (root : Element) (selectors : string)
  : M (option Element) :=
  call (QuerySelector root selectors) ;;; ret (querySelector b root selectors).

(** [onClick], with [transformedElement] the element [postRender] was
    called on. *)
Definition onClick (b : Browser) (transformedElement : Element)
    (event : MouseEvent) (url : string) : M unit :=
  let modifierActive := ctrlKey event || metaKey event in
  parsedUrl <- construct_URL b url ;;
  let linkText := or_else (innerText <$> target event) url in
  let to := replace_first (location_origin b) url in
  call (CaptureEvent "click" linkText to) ;;;
  if truthy (hash parsedUrl) then
    if modifierActive then
      call (WindowOpen url "_blank")
    else
      call (Navigate url) ;;;
      found <- query b transformedElement
                 ("[id=" +:+ dquote +:+ slice 1 (hash parsedUrl) +:+ dquote +:+ "]") ;;
      match found with
      | Some el => call (ScrollIntoView el)
      | None => ret tt
      end
  else
    if modifierActive then
      call (WindowOpen url "_blank")
    else
      call (Navigate url).

(** The analytics events of a log. *)
Definition is_capture (c : Call) : bool :=
  match c with
  | CaptureEvent _ _ _ => true
  | _ => false
  end.

Definition captures (cs : list Call) : list Call := List.filter is_capture cs.

(** *** Stripping the origin *)

Lemma prefix_append p rest : String.prefix p (p +:+ rest) = true.
Proof.
  induction p as [|a p IH]; simpl; [now destruct rest|].
  destruct (ascii_dec a a); [exact IH|congruence].
Qed.

Lemma slice_append p rest : slice (String.length p) (p +:+ rest) = rest.
Proof. induction p as [|a p IH]; simpl; [now destruct rest|exact IH]. Qed.

Lemma replace_first_unfold pattern s :
  replace_first pattern s =
    if String.prefix pattern s then slice (String.length pattern) s
    else
      match s with
      | EmptyString => EmptyString
      | String c rest => String c (replace_first pattern rest)
      end.
Proof. now destruct s. Qed.

Lemma replace_first_prefix origin rest :
  replace_first origin (origin +:+ rest) = rest.
Proof. now rewrite replace_first_unfold, prefix_append, slice_append. Qed.

(** *** A browser to click in *)

(** The fragment of a URL string as [URL.hash] reports it: from the first
    '#' on, and empty when nothing follows the '#'. *)
Fixpoint fragment (url : string) : string :=
  match url with
  | EmptyString => EmptyString
  | String c rest =>
      if Ascii.eqb c "#" then (if truthy rest then url else EmptyString)
      else fragment rest
  end.

Definition docs_root : Element := mkElement 1 "<h2>Install</h2>" "Install".
Definition install_heading : Element := mkElement 2 "Install" "Install".

Definition portal : Browser :=
  mkBrowser "http://localhost:3000"
    (fun url => if String.prefix "http" url then Some (mkURL (fragment url)) else None)
    (fun root selectors =>
       if decide (root = docs_root /\
                  selectors = "[id=" +:+ dquote +:+ "install" +:+ dquote +:+ "]")
       then Some install_heading else None).

Definition anchor : Element := mkElement 7 "Install" "Install".

Definition plain_click : MouseEvent := mkMouseEvent false false (Some anchor).
Definition ctrl_click : MouseEvent := mkMouseEvent true false (Some anchor).

(** *** The claims about clicks *)

(** Unfolds a run of the handler down to the log it builds. *)
Ltac run_handler :=
  unfold run, onClick, bind, construct_URL, query, call, ret, throw.

(** When the [URL] constructor rejects the string, the handler throws
    before it calls anything. *)
Lemma unparsable_url_throws b root event url :
  new_URL b url = None -> run (onClick b root event url) = (None, []).
Proof.
  intros Hu. run_handler. now rewrite Hu.
Qed.

(** C4. For a URL whose hash is '#' followed by a section id, the handler
    reports the click and then: with neither control nor meta held, calls
    [navigate] with the full URL, looks up the attribute selector
    [id="section id"] below the rendered element and calls [scrollIntoView]
    on the element found; with control or meta held, calls
    [window.open(url, '_blank')] and does not navigate. *)
Theorem fragment_click_navigates_and_scrolls b root event url u section_id :
  new_URL b url = Some u ->
  hash u = "#" +:+ section_id ->
  run (onClick b root event url) =
    (Some tt,
     CaptureEvent "click" (or_else (innerText <$> target event) url)
       (replace_first (location_origin b) url)
     :: if ctrlKey event || metaKey event
        then [WindowOpen url "_blank"]
        else Navigate url
             :: QuerySelector root ("[id=" +:+ dquote +:+ section_id +:+ dquote +:+ "]")
             :: match querySelector b root
                        ("[id=" +:+ dquote +:+ section_id +:+ dquote +:+ "]") with
                | Some el => [ScrollIntoView el]
                | None => []
                end).
Proof.
  intros Hu Hhash. run_handler. rewrite Hu, Hhash. simpl.
  destruct (ctrlKey event), (metaKey event); simpl; try reflexivity.
  now destruct (querySelector b root _).
Qed.

Lemma fragment_click_navigates_and_scrolls_witness :
  run (onClick portal docs_root plain_click "http://localhost:3000/docs/guide#install") =
    (Some tt,
     [ CaptureEvent "click" "Install" "/docs/guide#install";
       Navigate "http://localhost:3000/docs/guide#install";
       QuerySelector docs_root ("[id=" +:+ dquote +:+ "install" +:+ dquote +:+ "]");
       ScrollIntoView install_heading ]).
Proof.
  exact (fragment_click_navigates_and_scrolls portal docs_root plain_click
           "http://localhost:3000/docs/guide#install" (mkURL "#install") "install"
           eq_refl eq_refl).
Defined.

(** C5. Whatever the modifier keys and whether or not the URL has a
    fragment, the handler emits exactly one analytics event: action "click",
    labelled with the inner text of the event target, or with the URL when
    there is no target or its text is empty, and with [to] the URL from
    which the first occurrence of the window origin was removed, which for
    a URL that starts with the origin is the rest of the URL. *)
Theorem click_emits_one_analytics_event b root event url u :
  new_URL b url = Some u ->
  captures (snd (run (onClick b root event url))) =
    [ CaptureEvent "click"
        match target event with
        | Some a => if truthy (innerText a) then innerText a else url
        | None => url
        end
        (replace_first (location_origin b) url) ] /\
  forall rest, url = location_origin b +:+ rest ->
    replace_first (location_origin b) url = rest.
Proof.
  intros Hu. split.
  - run_handler. unfold or_else. rewrite Hu. simpl.
    assert (Hlabel : (if truthy_opt (innerText <$> target event)
                      then default url (innerText <$> target event) else url) =
                     match target event with
                     | Some a => if truthy (innerText a) then innerText a else url
                     | None => url
                     end) by now destruct (target event).
    rewrite Hlabel.
    destruct (truthy (hash u)), (ctrlKey event), (metaKey event); simpl;
      try reflexivity.
    now destruct (querySelector b root _).
  - intros rest ->. apply replace_first_prefix.
Qed.

Lemma click_emits_one_analytics_event_witness :
  captures (snd (run (onClick portal docs_root ctrl_click
                        "http://localhost:3000/docs/guide"))) =
    [ CaptureEvent "click" "Install" "/docs/guide" ] /\
  forall rest, "http://localhost:3000/docs/guide" = "http://localhost:3000" +:+ rest ->
    "/docs/guide" = rest.
Proof.
  exact (click_emits_one_analytics_event portal docs_root ctrl_click
           "http://localhost:3000/docs/guide" (mkURL EmptyString) eq_refl).
Defined.

(** C6. For a URL without a fragment and with neither control nor meta
    held, the handler reports the click and calls [navigate] with the URL,
    and nothing else: no [querySelector], no [scrollIntoView], no
    [window.open]. *)
Theorem plain_click_only_navigates b root event url u :
  new_URL b url = Some u ->
  hash u = EmptyString ->
  ctrlKey event = false ->
  metaKey event = false ->
  run (onClick b root event url) =
    (Some tt,
     [ CaptureEvent "click" (or_else (innerText <$> target event) url)
         (replace_first (location_origin b) url);
       Navigate url ]).
Proof.
  intros Hu Hhash Hctrl Hmeta.
  run_handler. rewrite Hu. simpl. now rewrite Hhash, Hctrl, Hmeta.
Qed.

Lemma plain_click_only_navigates_witness :
  run (onClick portal docs_root plain_click "http://localhost:3000/docs/guide") =
    (Some tt,
     [ CaptureEvent "click" "Install" "/docs/guide";
       Navigate "http://localhost:3000/docs/guide" ]).
Proof.
  exact (plain_click_only_navigates portal docs_root plain_click
           "http://localhost:3000/docs/guide" (mkURL EmptyString)
           eq_refl eq_refl eq_refl eq_refl).
Defined.

(** *** Further properties of the click handler *)

(** [s.includes(pattern)]: the pattern occurs somewhere in [s]. *)
Fixpoint contains (pattern s : string) : bool :=
  String.prefix pattern s ||
  match s with
  | EmptyString => false
  | String _ rest => contains pattern rest
  end.

Lemma contains_unfold pattern s :
  contains pattern s =
    String.prefix pattern s ||
    match s with
    | EmptyString => false
    | String _ rest => contains pattern rest
    end.
Proof. now destruct s. Qed.

Lemma prefix_true p s : String.prefix p s = true -> exists post, s = p +:+ post.
Proof.
  revert s. induction p as [|a p IH]; intros s H.
  - now exists s.
  - destruct s as [|b s]; simpl in H; [discriminate|].
    destruct (ascii_dec a b) as [->|]; [|discriminate].
    destruct (IH s H) as [post ->]. now exists post.
Qed.

Lemma contains_occurs pattern s :
  contains pattern s = true <-> exists pre post, s = pre +:+ pattern +:+ post.
Proof.
  split.
  - induction s as [|c s IH]; rewrite contains_unfold; intros H;
      apply orb_true_iff in H as [H|H]; try discriminate.
    + destruct (prefix_true _ _ H) as [post Hpost]. now exists EmptyString, post.
    + destruct (prefix_true _ _ H) as [post Hpost]. now exists EmptyString, post.
    + destruct (IH H) as (pre & post & ->). now exists (String c pre), post.
  - intros (pre & post & ->). induction pre as [|c pre IH].
    + change (EmptyString +:+ pattern +:+ post) with (pattern +:+ post).
      now rewrite contains_unfold, prefix_append.
    + change (String c pre +:+ pattern +:+ post)
        with (String c (pre +:+ pattern +:+ post)).
      rewrite contains_unfold, IH. apply orb_true_r.
Qed.

Lemma replace_first_absent pattern s :
  contains pattern s = false -> replace_first pattern s = s.
Proof.
  induction s as [|c s IH]; rewrite contains_unfold, replace_first_unfold;
    intros H; apply orb_false_iff in H as [Hp Hrest]; rewrite Hp;
    [reflexivity|].
  now rewrite (IH Hrest).
Qed.

(** The calls that take the user somewhere. *)
Definition is_navigation (c : Call) : bool :=
  match c with
  | Navigate _ | WindowOpen _ _ => true
  | _ => false
  end.

Definition navigations (cs : list Call) : list Call := List.filter is_navigation cs.

(** With control or meta held the handler never navigates in the app,
    fragment or not: it reports the click and opens the URL in a new tab,
    and that is all. *)
Theorem modifier_click_opens_new_tab b root event url u :
  new_URL b url = Some u ->
  ctrlKey event || metaKey event = true ->
  run (onClick b root event url) =
    (Some tt,
     [ CaptureEvent "click" (or_else (innerText <$> target event) url)
         (replace_first (location_origin b) url);
       WindowOpen url "_blank" ]).
Proof.
  intros Hu Hmod. run_handler. rewrite Hu. simpl. rewrite Hmod.
  now destruct (truthy (hash u)).
Qed.

Lemma modifier_click_opens_new_tab_witness :
  run (onClick portal docs_root ctrl_click "http://localhost:3000/docs/guide") =
    (Some tt,
     [ CaptureEvent "click" "Install" "/docs/guide";
       WindowOpen "http://localhost:3000/docs/guide" "_blank" ]).
Proof.
  exact (modifier_click_opens_new_tab portal docs_root ctrl_click
           "http://localhost:3000/docs/guide" (mkURL EmptyString)
           eq_refl eq_refl).
Defined.

Lemma unparsable_url_throws_witness :
  run (onClick portal docs_root plain_click "/docs/guide") = (None, []).
Proof.
  exact (unparsable_url_throws portal docs_root plain_click "/docs/guide" eq_refl).
Defined.

(** Every click the handler accepts takes the user to the clicked URL
    exactly once: either [navigate(url)] or [window.open(url, '_blank')],
    never both and never neither, and the choice depends on the modifier
    keys alone. *)
Theorem click_navigates_or_opens_once b root event url u :
  new_URL b url = Some u ->
  navigations (snd (run (onClick b root event url))) =
    [ if ctrlKey event || metaKey event
      then WindowOpen url "_blank" else Navigate url ].
Proof.
  intros Hu. run_handler. rewrite Hu. simpl.
  destruct (truthy (hash u)), (ctrlKey event), (metaKey event); simpl;
    try reflexivity.
  now destruct (querySelector b root _).
Qed.

Lemma click_navigates_or_opens_once_witness :
  navigations (snd (run (onClick portal docs_root plain_click
                           "http://localhost:3000/docs/guide#install"))) =
    [ Navigate "http://localhost:3000/docs/guide#install" ].
Proof.
  exact (click_navigates_or_opens_once portal docs_root plain_click
           "http://localhost:3000/docs/guide#install" (mkURL "#install") eq_refl).
Defined.

(** The handler scrolls only to what it looked up: a [scrollIntoView] in
    the log means that no modifier key was held, that the URL had a
    fragment, and that the element is the one [querySelector] found below
    the rendered element for the id selector of that fragment. *)
Theorem scroll_only_to_the_element_found b root event url u el :
  new_URL b url = Some u ->
  ScrollIntoView el ∈ snd (run (onClick b root event url)) ->
  ctrlKey event = false /\ metaKey event = false /\
  truthy (hash u) = true /\
  querySelector b root
    ("[id=" +:+ dquote +:+ slice 1 (hash u) +:+ dquote +:+ "]") = Some el.
Proof.
  intros Hu. run_handler. rewrite Hu. simpl.
  destruct (truthy (hash u)), (ctrlKey event), (metaKey event); simpl;
    try destruct (querySelector b root _) as [found|]; simpl;
    rewrite ?elem_of_cons, ?elem_of_nil; intros Hin;
    repeat (destruct Hin as [Hin|Hin]; try discriminate Hin); try contradiction.
  injection Hin as ->. auto.
Qed.

Lemma scroll_only_to_the_element_found_witness :
  ctrlKey plain_click = false /\ metaKey plain_click = false /\
  truthy "#install" = true /\
  querySelector portal docs_root
    ("[id=" +:+ dquote +:+ slice 1 "#install" +:+ dquote +:+ "]") = Some install_heading.
Proof.
  apply (scroll_only_to_the_element_found portal docs_root plain_click
           "http://localhost:3000/docs/guide#install" (mkURL "#install")
           install_heading eq_refl).
  vm_compute. do 3 apply list_elem_of_further. apply list_elem_of_here.
Defined.

(** A URL in which the window origin does not occur is reported whole:
    [to] is the URL itself. *)
Theorem foreign_url_is_reported_whole b root event url u :
  new_URL b url = Some u ->
  contains (location_origin b) url = false ->
  captures (snd (run (onClick b root event url))) =
    [ CaptureEvent "click" (or_else (innerText <$> target event) url) url ].
Proof.
  intros Hu Habsent. run_handler. rewrite Hu. simpl.
  rewrite (replace_first_absent _ _ Habsent).
  destruct (truthy (hash u)), (ctrlKey event), (metaKey event); simpl;
    try reflexivity.
  now destruct (querySelector b root _).
Qed.

Lemma foreign_url_is_reported_whole_witness :
  captures (snd (run (onClick portal docs_root plain_click
                        "https://backstage.io/docs"))) =
    [ CaptureEvent "click" "Install" "https://backstage.io/docs" ].
Proof.
  exact (foreign_url_is_reported_whole portal docs_root plain_click
           "https://backstage.io/docs" (mkURL EmptyString) eq_refl eq_refl).
Defined.

End Click.
